(** * rx-player: adaptive bitrate and track selection engine

    A shallow embedding of the adaptive module (the [DEFAULTS] table, the
    helpers [find], [def], [getClosestBitrate],
    [getMaxUsefulBitrateforWidth], [findAdaptationByLang],
    [findAudioAdaptation], [findTextAdaptation] and the engine built by the
    default export) together with the properties stated about it.

    Conventions of the embedding.

    - A JavaScript number is a [number]: an exact rational, [+Infinity],
      [-Infinity] or [NaN].  Arithmetic follows IEEE 754 on the special
      values; on finite values it is exact (binary64 rounding and the sign
      of zero are not represented).
    - Reading an array out of range yields [VUndefined], as in JavaScript.
    - An array that the code updates in place is threaded through the
      functions that touch it: such a function returns the array's new
      contents next to its result.
    - An observable is represented by the state of one subscriber and a
      step function that delivers one upstream notification to it. *)

From Stdlib Require Import String.
From Stdlib Require Import QArith Lqa Lia ZArith Bool List Permutation.
Import ListNotations.

Local Open Scope Q_scope.
Local Open Scope list_scope.

(** ** JavaScript numbers *)

Inductive number : Type :=
| Fin (q : Q)
| PInf
| NInf
| NaN.

Definition Infinity : number := PInf.

Declare Scope number_scope.
Delimit Scope number_scope with num.
Bind Scope number_scope with number.

(** [a - b] *)
Definition num_sub (a b : number) : number :=
  match a, b with
  | NaN, _ | _, NaN => NaN
  | Fin x, Fin y => Fin (x - y)
  | Fin _, PInf => NInf
  | Fin _, NInf => PInf
  | PInf, PInf => NaN
  | PInf, _ => PInf
  | NInf, NInf => NaN
  | NInf, _ => NInf
  end.

(** [a / b]; a finite value divided by zero is an infinity of the sign of
    the dividend, and [0 / 0] is [NaN]. *)
Definition num_div (a b : number) : number :=
  match a, b with
  | NaN, _ | _, NaN => NaN
  | Fin x, Fin y =>
      if Qeq_bool y 0 then
        if Qeq_bool x 0 then NaN
        else if Qle_bool 0 x then PInf else NInf
      else Fin (x / y)
  | Fin _, PInf | Fin _, NInf => Fin 0
  | PInf, Fin y => if Qle_bool 0 y then PInf else NInf
  | NInf, Fin y => if Qle_bool 0 y then NInf else PInf
  | PInf, PInf | PInf, NInf | NInf, PInf | NInf, NInf => NaN
  end.

(** [a <= b]; every comparison with [NaN] is false. *)
Definition num_le (a b : number) : bool :=
  match a, b with
  | NaN, _ | _, NaN => false
  | Fin x, Fin y => Qle_bool x y
  | NInf, _ => true
  | _, PInf => true
  | _, _ => false
  end.

(** [a < b] *)
Definition num_lt (a b : number) : bool :=
  match a, b with
  | NaN, _ | _, NaN => false
  | Fin x, Fin y => negb (Qle_bool y x)
  | PInf, _ => false
  | _, NInf => false
  | _, _ => true
  end.

(** [a >= b] and [a > b] *)
Definition num_ge (a b : number) : bool := num_le b a.
Definition num_gt (a b : number) : bool := num_lt b a.

(** [a === b] on numbers: [NaN] equals nothing. *)
Definition num_eq (a b : number) : bool :=
  match a, b with
  | Fin x, Fin y => Qeq_bool x y
  | PInf, PInf | NInf, NInf => true
  | _, _ => false
  end.

(** [Math.min(a, b)] *)
Definition Math_min (a b : number) : number :=
  match a, b with
  | NaN, _ | _, NaN => NaN
  | _, _ => if num_le a b then a else b
  end.

Infix "-" := num_sub : number_scope.
Infix "/" := num_div : number_scope.
Infix "<=?" := num_le : number_scope.
Infix "<?" := num_lt : number_scope.
Infix ">=?" := num_ge : number_scope.
Infix ">?" := num_gt : number_scope.
Infix "===" := num_eq (at level 70, no associativity) : number_scope.

(** Integer literal as a number. *)
Definition int (z : Z) : number := Fin (inject_Z z).

(** ** Objects and values *)

(** A Representation as this module reads it.  An absent [width] is the
    number [NaN]: the module reads [width] only under subtraction and
    comparison, where [undefined] is converted to [NaN]. *)
Record Representation : Type := mkRepresentation {
  id : string;
  bitrate : number;
  width : number;
}.

(** The values that flow through the bitrate pipeline. *)
Inductive value : Type :=
| VUndefined
| VNum (n : number)
| VRep (r : Representation).

(** Conversion to a number, as the arithmetic and relational operators
    apply it.  A Representation has no [valueOf] or [toString] of its own,
    so it converts to [NaN]. *)
Definition ToNumber (v : value) : number :=
  match v with
  | VUndefined => NaN
  | VNum n => n
  | VRep _ => NaN
  end.

(** [a === b] on pipeline values ([===] on two objects is identity, which
    the record identifier [id] stands for). *)
Definition strict_equals (a b : value) : bool :=
  match a, b with
  | VUndefined, VUndefined => true
  | VNum x, VNum y => num_eq x y
  | VRep x, VRep y => String.eqb (id x) (id y)
  | _, _ => false
  end.

(** [array[i]] *)
Definition index_num (bitrates : list number) (i : nat) : value :=
  match nth_error bitrates i with
  | Some v => VNum v
  | None => VUndefined
  end.

Definition index_rep (representations : list Representation) (i : nat) : value :=
  match nth_error representations i with
  | Some r => VRep r
  | None => VUndefined
  end.

(** ** [find] *)

(** The module's own [find]: the first element for which the predicate
    returns [true], [None] standing for [null]. *)
Fixpoint find {A : Type} (array : list A) (predicate : A -> bool) : option A :=
  match array with
  | [] => None
  | x :: rest => if predicate x then Some x else find rest predicate
  end.

(** ** [getClosestBitrate] *)

(** The loop [for (i = n - 1; i >= 0; i--)] followed by
    [return bitrates[0]]. *)
Fixpoint getClosestBitrate_loop
  (bitrates : list number) (btr threshold : number) (n : nat) : value :=
  match n with
  | O => index_num bitrates 0
  | S i =>
      let v := index_num bitrates i in
      if (ToNumber v / btr <=? int 1 - threshold)%num then v
      else getClosestBitrate_loop bitrates btr threshold i
  end.

Definition getClosestBitrate
  (bitrates : list number) (btr threshold : number) : value :=
  getClosestBitrate_loop bitrates btr threshold (length bitrates).

(** ** [getMaxUsefulBitrateforWidth] *)

(** [Array.prototype.sort(compareFn)], as a stable insertion sort: an
    element stays in front of the ones [compareFn] does not put it strictly
    after.  The sort works in place, so its result is also the new content
    of the array it was called on. *)
Fixpoint sort_insert {A : Type}
  (compareFn : A -> A -> number) (x : A) (sorted : list A) : list A :=
  match sorted with
  | [] => [x]
  | y :: rest =>
      if (compareFn x y >? int 0)%num then y :: sort_insert compareFn x rest
      else x :: sorted
  end.

Fixpoint Array_sort {A : Type}
  (compareFn : A -> A -> number) (array : list A) : list A :=
  match array with
  | [] => []
  | x :: rest => sort_insert compareFn x (Array_sort compareFn rest)
  end.

(** [Array.prototype.find(predicate)]: [None] stands for [undefined]. *)
Definition Array_find {A : Type} (predicate : A -> bool) (array : list A)
  : option A :=
  List.find predicate array.

(** The function returns its result together with the content of
    [representations] after the call: [representations.sort(...)] has
    reordered the array that the caller passed. *)
Definition getMaxUsefulBitrateforWidth
  (representations : list Representation) (targetWidth : number)
  : value * list Representation :=
  let sortedRepsByWidth :=
    Array_sort (fun a b => (width a - width b)%num) representations in
  let representations := sortedRepsByWidth in
  let maxWidth :=
    Array_find (fun r => (width r >=? targetWidth)%num) sortedRepsByWidth in
  match maxWidth with
  | Some maxWidth =>
      let filteredAdaptations :=
        filter (fun r => (width r <=? ToNumber (VRep maxWidth))%num)
               representations in
      if (0 <? length filteredAdaptations)%nat then
        match nth_error filteredAdaptations
                        (length filteredAdaptations - 1) with
        | Some r => (VNum (bitrate r), representations)
        | None => (VUndefined, representations)
        end
      else (index_rep representations 0, representations)
  | None => (VNum Infinity, representations)
  end.

(** ** Adaptations and their selection *)

(** An Adaptation as this module reads it; [getAvailableBitrates] holds
    what the method of that name returns. *)
Record Adaptation : Type := mkAdaptation {
  type : string;
  language : string;
  isAudioDescription : bool;
  isClosedCaption : bool;
  representations : list Representation;
  getAvailableBitrates : list number;
}.

(** What a selector yields: an Adaptation, [null] or [undefined]. *)
Inductive selection : Type :=
| Selected (a : Adaptation)
| Null
| Undefined.

Definition index_adaptation (adaptations : list Adaptation) (i : nat)
  : selection :=
  match nth_error adaptations i with
  | Some a => Selected a
  | None => Undefined
  end.

(** A track preference is an object: [ref] is its identity, which is what
    [===] compares, and the other fields are its properties. *)
Module AudioTrack.
Record t : Type := make {
  ref : nat;
  language : string;
  audioDescription : bool;
}.
End AudioTrack.

Module TextTrack.
Record t : Type := make {
  ref : nat;
  language : string;
  closedCaption : bool;
}.
End TextTrack.

Section Selectors.

(** The language matcher of [utils/languages], imported by the module:
    the index of the best match in the list of languages, negative when
    there is none. *)
Variable findBetterMatchIndex : list string -> string -> Z.

Definition findAdaptationByLang
  (adaptations : list Adaptation) (lang : string) : selection :=
  let languages := map language adaptations in
  let index := findBetterMatchIndex languages lang in
  if (index >=? 0)%Z then index_adaptation adaptations (Z.to_nat index)
  else Null.

(** The flags are booleans, on which [==] is equality; a flag that the
    preference does not carry is [false], the default of the parameter. *)
Definition findAudioAdaptation
  (adaptations : list Adaptation) (lang : string) (audioDescription : bool)
  : selection :=
  let filteredAdaptations :=
    filter (fun adaptation =>
              Bool.eqb (isAudioDescription adaptation) audioDescription)
           adaptations in
  findAdaptationByLang filteredAdaptations lang.

Definition findTextAdaptation
  (adaptations : list Adaptation) (lang : string) (closedCaption : bool)
  : selection :=
  let filteredAdaptations :=
    filter (fun adaptation =>
              Bool.eqb (isClosedCaption adaptation) closedCaption)
           adaptations in
  findAdaptationByLang filteredAdaptations lang.

(** The function mapped over the audio preference by
    [audioAdaptationChoice]: [findAudioAdaptation(...) || adaptations[0]]. *)
Definition audioAdaptationChoice
  (adaptations : list Adaptation) (track : AudioTrack.t) : selection :=
  match findAudioAdaptation adaptations
          (AudioTrack.language track) (AudioTrack.audioDescription track) with
  | Selected a => Selected a
  | Null | Undefined => index_adaptation adaptations 0
  end.

(** The function mapped over the text preference by
    [textAdaptationChoice]; the preference [None] is [null]. *)
Definition textAdaptationChoice
  (adaptations : list Adaptation) (arg : option TextTrack.t) : selection :=
  match arg with
  | Some arg =>
      findTextAdaptation adaptations
        (TextTrack.language arg) (TextTrack.closedCaption arg)
  | None => Null
  end.

End Selectors.

(** ** [def] and the configuration *)

(** An arbitrary JavaScript value, as a caller may pass it to a setter. *)
Inductive any : Type :=
| AUndefined
| ANull
| ABoolean (b : bool)
| ANumber (n : number)
| AString (s : string)
| AObject.

Definition typeof (x : any) : string :=
  match x with
  | AUndefined => "undefined"
  | ANull => "object"
  | ABoolean _ => "boolean"
  | ANumber _ => "number"
  | AString _ => "string"
  | AObject => "object"
  end.

(** [typeof x == "number" && x > 0 ? x : val] *)
Definition def (x : any) (val : number) : number :=
  if String.eqb (typeof x) "number" then
    match x with
    | ANumber n => if (n >? int 0)%num then n else val
    | _ => val
    end
  else val.

Record Config : Type := mkConfig {
  defaultAudioTrack : AudioTrack.t;
  defaultTextTrack : option TextTrack.t;
  defaultBufferSize : number;
  defaultBufferThreshold : number;
  initialVideoBitrate : number;
  initialAudioBitrate : number;
  maxVideoBitrate : number;
  maxAudioBitrate : number;
  limitVideoWidth : bool;
  throttleWhenHidden : bool;
}.

(** [DEFAULTS] has no [limitVideoWidth] and no [throttleWhenHidden]: both
    are [undefined] unless an option sets them, and are only ever tested
    for truth. *)
Definition DEFAULTS : Config := {|
  defaultAudioTrack := AudioTrack.make 0 "fra" false;
  defaultTextTrack := None;
  defaultBufferSize := int 30;
  defaultBufferThreshold := Fin (3 # 10);
  initialVideoBitrate := int 0;
  initialAudioBitrate := int 0;
  maxVideoBitrate := Infinity;
  maxAudioBitrate := Infinity;
  limitVideoWidth := false;
  throttleWhenHidden := false;
|}.

(** The [options] argument; [None] is a key that is absent or
    [undefined]. *)
Record Options : Type := mkOptions {
  o_defaultAudioTrack : option AudioTrack.t;
  o_defaultTextTrack : option (option TextTrack.t);
  o_defaultBufferSize : option number;
  o_defaultBufferThreshold : option number;
  o_initialVideoBitrate : option number;
  o_initialAudioBitrate : option number;
  o_maxVideoBitrate : option number;
  o_maxAudioBitrate : option number;
  o_limitVideoWidth : option bool;
  o_throttleWhenHidden : option bool;
}.

Definition noOptions : Options :=
  mkOptions None None None None None None None None None None.

Definition orDefault {A : Type} (o : option A) (d : A) : A :=
  match o with Some a => a | None => d end.

(** [Object.assign({}, DEFAULTS, options)] *)
Definition assign (defaults : Config) (options : Options) : Config := {|
  defaultAudioTrack :=
    orDefault (o_defaultAudioTrack options) (defaultAudioTrack defaults);
  defaultTextTrack :=
    orDefault (o_defaultTextTrack options) (defaultTextTrack defaults);
  defaultBufferSize :=
    orDefault (o_defaultBufferSize options) (defaultBufferSize defaults);
  defaultBufferThreshold :=
    orDefault (o_defaultBufferThreshold options)
              (defaultBufferThreshold defaults);
  initialVideoBitrate :=
    orDefault (o_initialVideoBitrate options) (initialVideoBitrate defaults);
  initialAudioBitrate :=
    orDefault (o_initialAudioBitrate options) (initialAudioBitrate defaults);
  maxVideoBitrate :=
    orDefault (o_maxVideoBitrate options) (maxVideoBitrate defaults);
  maxAudioBitrate :=
    orDefault (o_maxAudioBitrate options) (maxAudioBitrate defaults);
  limitVideoWidth :=
    orDefault (o_limitVideoWidth options) (limitVideoWidth defaults);
  throttleWhenHidden :=
    orDefault (o_throttleWhenHidden options) (throttleWhenHidden defaults);
|}.

(** ** The engine: its cells and its setters *)

(** The current values of the engine's [BehaviorSubject]s. *)
Record Engine : Type := mkEngine {
  config : Config;
  languages : AudioTrack.t;
  subtitles : option TextTrack.t;
  averageBitrates_audio : number;
  averageBitrates_video : number;
  usrBitrates_audio : number;
  usrBitrates_video : number;
  maxBitrates_audio : number;
  maxBitrates_video : number;
  bufSizes_audio : number;
  bufSizes_video : number;
  bufSizes_text : number;
}.

(** The engine as the default export builds it. *)
Definition create (options : Options) : Engine :=
  let cfg := assign DEFAULTS options in {|
  config := cfg;
  languages := defaultAudioTrack cfg;
  subtitles := defaultTextTrack cfg;
  averageBitrates_audio := initialAudioBitrate cfg;
  averageBitrates_video := initialVideoBitrate cfg;
  usrBitrates_audio := Infinity;
  usrBitrates_video := Infinity;
  maxBitrates_audio := maxAudioBitrate cfg;
  maxBitrates_video := maxVideoBitrate cfg;
  bufSizes_audio := defaultBufferSize cfg;
  bufSizes_video := defaultBufferSize cfg;
  bufSizes_text := defaultBufferSize cfg;
|}.

(** [cells[type]] for the objects with an [audio] and a [video] key. *)
Definition by_type {A : Type} (audio video : A) (ty : string) : option A :=
  if String.eqb ty "audio" then Some audio
  else if String.eqb ty "video" then Some video
  else None.

Definition averageBitrates (e : Engine) : string -> option number :=
  by_type (averageBitrates_audio e) (averageBitrates_video e).
Definition usrBitrates (e : Engine) : string -> option number :=
  by_type (usrBitrates_audio e) (usrBitrates_video e).
Definition maxBitrates (e : Engine) : string -> option number :=
  by_type (maxBitrates_audio e) (maxBitrates_video e).
Definition bufSizes (e : Engine) (ty : string) : option number :=
  if String.eqb ty "text" then Some (bufSizes_text e)
  else by_type (bufSizes_audio e) (bufSizes_video e) ty.

(** What a cell sends to its subscribers on [next], and what the device
    and the debounce timer send. *)
Inductive Notification : Type :=
| Languages (track : AudioTrack.t)
| Subtitles (track : option TextTrack.t)
| AverageBitrates (ty : string) (n : number)
| UsrBitrates (ty : string) (n : number)
| MaxBitrates (ty : string) (n : number)
| BufSizes (ty : string) (n : number)
| VideoWidth (w : number)
| InBackground (isHidden : bool)
| DebounceElapsed.

Definition with_languages (e : Engine) (v : AudioTrack.t) : Engine :=
  mkEngine (config e) v (subtitles e)
    (averageBitrates_audio e) (averageBitrates_video e)
    (usrBitrates_audio e) (usrBitrates_video e)
    (maxBitrates_audio e) (maxBitrates_video e)
    (bufSizes_audio e) (bufSizes_video e) (bufSizes_text e).

Definition with_subtitles (e : Engine) (v : option TextTrack.t) : Engine :=
  mkEngine (config e) (languages e) v
    (averageBitrates_audio e) (averageBitrates_video e)
    (usrBitrates_audio e) (usrBitrates_video e)
    (maxBitrates_audio e) (maxBitrates_video e)
    (bufSizes_audio e) (bufSizes_video e) (bufSizes_text e).

Definition with_usrBitrates_audio (e : Engine) (v : number) : Engine :=
  mkEngine (config e) (languages e) (subtitles e)
    (averageBitrates_audio e) (averageBitrates_video e)
    v (usrBitrates_video e)
    (maxBitrates_audio e) (maxBitrates_video e)
    (bufSizes_audio e) (bufSizes_video e) (bufSizes_text e).

Definition with_usrBitrates_video (e : Engine) (v : number) : Engine :=
  mkEngine (config e) (languages e) (subtitles e)
    (averageBitrates_audio e) (averageBitrates_video e)
    (usrBitrates_audio e) v
    (maxBitrates_audio e) (maxBitrates_video e)
    (bufSizes_audio e) (bufSizes_video e) (bufSizes_text e).

Definition with_maxBitrates_audio (e : Engine) (v : number) : Engine :=
  mkEngine (config e) (languages e) (subtitles e)
    (averageBitrates_audio e) (averageBitrates_video e)
    (usrBitrates_audio e) (usrBitrates_video e)
    v (maxBitrates_video e)
    (bufSizes_audio e) (bufSizes_video e) (bufSizes_text e).

Definition with_maxBitrates_video (e : Engine) (v : number) : Engine :=
  mkEngine (config e) (languages e) (subtitles e)
    (averageBitrates_audio e) (averageBitrates_video e)
    (usrBitrates_audio e) (usrBitrates_video e)
    (maxBitrates_audio e) v
    (bufSizes_audio e) (bufSizes_video e) (bufSizes_text e).

Definition with_bufSizes_audio (e : Engine) (v : number) : Engine :=
  mkEngine (config e) (languages e) (subtitles e)
    (averageBitrates_audio e) (averageBitrates_video e)
    (usrBitrates_audio e) (usrBitrates_video e)
    (maxBitrates_audio e) (maxBitrates_video e)
    v (bufSizes_video e) (bufSizes_text e).

Definition with_bufSizes_video (e : Engine) (v : number) : Engine :=
  mkEngine (config e) (languages e) (subtitles e)
    (averageBitrates_audio e) (averageBitrates_video e)
    (usrBitrates_audio e) (usrBitrates_video e)
    (maxBitrates_audio e) (maxBitrates_video e)
    (bufSizes_audio e) v (bufSizes_text e).

(** Each setter returns the engine after the call and the notification
    that the cell it wrote sends to its subscribers. *)
Definition setAudioTrack (track : AudioTrack.t) (e : Engine)
  : Engine * Notification :=
  (with_languages e track, Languages track).

Definition setTextTrack (track : option TextTrack.t) (e : Engine)
  : Engine * Notification :=
  (with_subtitles e track, Subtitles track).

Definition getAudioTrack (e : Engine) : AudioTrack.t := languages e.
Definition getTextTrack (e : Engine) : option TextTrack.t := subtitles e.
Definition getAudioMaxBitrate (e : Engine) : number := maxBitrates_audio e.
Definition getVideoMaxBitrate (e : Engine) : number := maxBitrates_video e.
Definition getAudioBufferSize (e : Engine) : number := bufSizes_audio e.
Definition getVideoBufferSize (e : Engine) : number := bufSizes_video e.

Definition setAudioBitrate (x : any) (e : Engine) : Engine * Notification :=
  let v := def x Infinity in
  (with_usrBitrates_audio e v, UsrBitrates "audio" v).

Definition setVideoBitrate (x : any) (e : Engine) : Engine * Notification :=
  let v := def x Infinity in
  (with_usrBitrates_video e v, UsrBitrates "video" v).

Definition setAudioMaxBitrate (x : any) (e : Engine) : Engine * Notification :=
  let v := def x Infinity in
  (with_maxBitrates_audio e v, MaxBitrates "audio" v).

Definition setVideoMaxBitrate (x : any) (e : Engine) : Engine * Notification :=
  let v := def x Infinity in
  (with_maxBitrates_video e v, MaxBitrates "video" v).

Definition setAudioBufferSize (x : any) (e : Engine) : Engine * Notification :=
  let v := def x (defaultBufferSize (config e)) in
  (with_bufSizes_audio e v, BufSizes "audio" v).

Definition setVideoBufferSize (x : any) (e : Engine) : Engine * Notification :=
  let v := def x (defaultBufferSize (config e)) in
  (with_bufSizes_video e v, BufSizes "video" v).

(** ** [getBufferAdapters]: the stream of chosen Representations *)

(** The outcome of code that may throw a [TypeError] (a property read on
    [null] or [undefined]). *)
Inductive result (A : Type) : Type :=
| Ok (a : A)
| TypeError.
Arguments Ok {A} a.
Arguments TypeError {A}.

(** The function mapped over [[maxBitrates, videoWidth, inBackground]] for
    a video Adaptation.  It returns the bound and the content of
    [representations] after the call. *)
Definition videoMaxBitrates
  (cfg : Config) (bitrates : list number)
  (representations : list Representation)
  (maxSetBitrate width : number) (isHidden : bool)
  : value * list Representation :=
  if throttleWhenHidden cfg && isHidden then
    (index_num bitrates 0, representations)
  else
    let '(maxUsableBitrate, representations) :=
      if limitVideoWidth cfg then
        getMaxUsefulBitrateforWidth representations width
      else (index_num bitrates (length bitrates - 1), representations) in
    (VNum (Math_min (ToNumber maxUsableBitrate) maxSetBitrate),
     representations).

(** The target bitrate of the function given to the outer [combineLatest];
    [btr] is only ever used as a divisor, hence as a number. *)
Definition targetBitrate (usr : number) (max avr : value) : number :=
  if (usr <? Infinity)%num then usr
  else if (ToNumber max <? Infinity)%num then
    Math_min (ToNumber max) (ToNumber avr)
  else ToNumber avr.

(** The function given to the outer [combineLatest]; [None] is the [null]
    of [find]. *)
Definition chooseRepresentation
  (representations : list Representation) (bitrates : list number)
  (usr : number) (max avr : value) : option Representation :=
  let btr := targetBitrate usr max avr in
  find representations
       (fun rep =>
          strict_equals (VNum (bitrate rep))
                        (getClosestBitrate bitrates btr (int 0))).

(** One subscriber of [getBufferAdapters(adaptation).representations] for
    an Adaptation with several Representations. *)
Record Subscriber : Type := mkSubscriber {
  (* fixed at the call of getBufferAdapters *)
  s_config : Config;
  s_type : string;
  s_bitrates : list number;
  (* the array adaptation.representations, shared with the caller *)
  s_representations : list Representation;
  (* latest values held by the two combineLatest *)
  s_usr : number;
  s_maxSet : number;
  s_width : number;
  s_hidden : bool;
  s_max : value;
  s_avr : value;
  (* avrBitrates: index of map, key of distinctUntilChanged, value that
     debounceTime holds back *)
  s_count : nat;
  s_avrKey : option value;
  s_pending : option value;
  (* output: key of distinctUntilChanged, what was emitted (latest first),
     how many times the combining function ran *)
  s_key : option (option Representation);
  s_emitted : list (option Representation);
  s_evaluations : nat;
}.

(** [distinctUntilChanged((a, b) => a.id === b.id)] followed by the
    delivery to the subscriber. *)
Definition emitDistinct (chosen : option Representation) (s : Subscriber)
  : result Subscriber :=
  let emit :=
    mkSubscriber (s_config s) (s_type s) (s_bitrates s) (s_representations s)
      (s_usr s) (s_maxSet s) (s_width s) (s_hidden s) (s_max s) (s_avr s)
      (s_count s) (s_avrKey s) (s_pending s)
      (Some chosen) (chosen :: s_emitted s) (s_evaluations s) in
  match s_key s with
  | None => Ok emit
  | Some None => TypeError
  | Some (Some a) =>
      match chosen with
      | None => TypeError
      | Some b => if String.eqb (id a) (id b) then Ok s else Ok emit
      end
  end.

(** One run of the combining function on the latest values. *)
Definition combine (s : Subscriber) : result Subscriber :=
  let chosen :=
    chooseRepresentation (s_representations s) (s_bitrates s)
                         (s_usr s) (s_max s) (s_avr s) in
  emitDistinct chosen
    (mkSubscriber (s_config s) (s_type s) (s_bitrates s) (s_representations s)
       (s_usr s) (s_maxSet s) (s_width s) (s_hidden s) (s_max s) (s_avr s)
       (s_count s) (s_avrKey s) (s_pending s)
       (s_key s) (s_emitted s) (S (s_evaluations s))).

(** A new value of [maxBitrates] reaches the outer [combineLatest]: for
    video through [videoMaxBitrates], otherwise the cell's value itself. *)
Definition refreshMax (s : Subscriber) (maxSet width : number) (hidden : bool)
  : Subscriber :=
  let '(max, representations) :=
    if String.eqb (s_type s) "video" then
      videoMaxBitrates (s_config s) (s_bitrates s) (s_representations s)
                       maxSet width hidden
    else (VNum maxSet, s_representations s) in
  mkSubscriber (s_config s) (s_type s) (s_bitrates s) representations
    (s_usr s) maxSet width hidden max (s_avr s)
    (s_count s) (s_avrKey s) (s_pending s)
    (s_key s) (s_emitted s) (s_evaluations s).

Definition with_usr (s : Subscriber) (usr : number) : Subscriber :=
  mkSubscriber (s_config s) (s_type s) (s_bitrates s) (s_representations s)
    usr (s_maxSet s) (s_width s) (s_hidden s) (s_max s) (s_avr s)
    (s_count s) (s_avrKey s) (s_pending s)
    (s_key s) (s_emitted s) (s_evaluations s).

(** A value of the average bitrate goes through [map], then
    [distinctUntilChanged()], and waits in [debounceTime(2000)]. *)
Definition smooth (s : Subscriber) (avrBitrate : number) : Subscriber :=
  let bufThreshold :=
    if Nat.eqb (s_count s) 0 then int 0
    else defaultBufferThreshold (s_config s) in
  let closest := getClosestBitrate (s_bitrates s) avrBitrate bufThreshold in
  let changed :=
    match s_avrKey s with
    | None => true
    | Some previous => negb (strict_equals previous closest)
    end in
  mkSubscriber (s_config s) (s_type s) (s_bitrates s) (s_representations s)
    (s_usr s) (s_maxSet s) (s_width s) (s_hidden s) (s_max s) (s_avr s)
    (S (s_count s))
    (if changed then Some closest else s_avrKey s)
    (if changed then Some closest else s_pending s)
    (s_key s) (s_emitted s) (s_evaluations s).

(** The debounce timer fires: the value it held back reaches the outer
    [combineLatest]. *)
Definition settle (s : Subscriber) : result Subscriber :=
  match s_pending s with
  | None => Ok s
  | Some closest =>
      combine
        (mkSubscriber (s_config s) (s_type s) (s_bitrates s)
           (s_representations s)
           (s_usr s) (s_maxSet s) (s_width s) (s_hidden s) (s_max s) closest
           (s_count s) (s_avrKey s) None
           (s_key s) (s_emitted s) (s_evaluations s))
  end.

(** Delivery of one notification to the subscriber. *)
Definition deliver (n : Notification) (s : Subscriber) : result Subscriber :=
  match n with
  | UsrBitrates ty v =>
      if String.eqb ty (s_type s) then combine (with_usr s v) else Ok s
  | MaxBitrates ty v =>
      if String.eqb ty (s_type s) then
        combine (refreshMax s v (s_width s) (s_hidden s))
      else Ok s
  | VideoWidth w =>
      if String.eqb (s_type s) "video" then
        combine (refreshMax s (s_maxSet s) w (s_hidden s))
      else Ok s
  | InBackground isHidden =>
      if String.eqb (s_type s) "video" then
        combine (refreshMax s (s_maxSet s) (s_width s) isHidden)
      else Ok s
  | AverageBitrates ty v =>
      if String.eqb ty (s_type s) then Ok (smooth s v) else Ok s
  | DebounceElapsed => settle s
  | Languages _ | Subtitles _ | BufSizes _ _ => Ok s
  end.

(** The current values of [deviceEvents]. *)
Record DeviceEvents : Type := mkDeviceEvents {
  videoWidth : number;
  inBackground : bool;
}.

(** The [representations] member of what [getBufferAdapters] returns:
    [only(representations[0])], or the combined stream, which carries the
    value that [startWith] computed at the call. *)
Inductive RepresentationsObservable : Type :=
| Only (v : value)
| Combined (startWith : value).

(** The [bufferSizes] member: the cell of the type, or a fresh cell that
    holds the default size. *)
Inductive BufferSizesObservable : Type :=
| BufSizesCell (ty : string)
| FreshCell (n : number).

Definition getBufferAdapters (e : Engine) (adaptation : Adaptation)
  : result (RepresentationsObservable * BufferSizesObservable) :=
  let bitrates := getAvailableBitrates adaptation in
  let bufferSizes :=
    match bufSizes e (type adaptation) with
    | Some _ => BufSizesCell (type adaptation)
    | None => FreshCell (defaultBufferSize (config e))
    end in
  if (1 <? length (representations adaptation))%nat then
    match averageBitrates e (type adaptation) with
    | Some avr =>
        Ok (Combined (getClosestBitrate bitrates avr (int 0)), bufferSizes)
    | None => TypeError
    end
  else Ok (Only (index_rep (representations adaptation) 0), bufferSizes).

(** Subscription to the combined stream: the cells replay their values in
    the order in which [combineLatest] subscribes to them, the value of
    [startWith] arrives, the combining function runs for the first time,
    and the average bitrate cell replays its value into [avrBitrates]. *)
Definition subscribe
  (e : Engine) (device : DeviceEvents) (adaptation : Adaptation)
  (startWith : value) : result Subscriber :=
  let ty := type adaptation in
  match usrBitrates e ty, maxBitrates e ty, averageBitrates e ty with
  | Some usr, Some maxSet, Some avr =>
      let s0 :=
        mkSubscriber (config e) ty (getAvailableBitrates adaptation)
          (representations adaptation)
          usr maxSet (videoWidth device) (inBackground device)
          VUndefined startWith
          0 None None
          None [] 0 in
      let s1 := refreshMax s0 maxSet (videoWidth device) (inBackground device) in
      match combine s1 with
      | Ok s2 => Ok (smooth s2 avr)
      | TypeError => TypeError
      end
  | _, _, _ => TypeError
  end.

(** ** [getAdaptationsChoice]: the stream of chosen Adaptations *)

(** [a === b] on the values of [$languages] and [$subtitles]. *)
Definition same_audioTrack (a b : AudioTrack.t) : bool :=
  Nat.eqb (AudioTrack.ref a) (AudioTrack.ref b).

Definition same_textTrack (a b : option TextTrack.t) : bool :=
  match a, b with
  | None, None => true
  | Some a, Some b => Nat.eqb (TextTrack.ref a) (TextTrack.ref b)
  | _, _ => false
  end.

Section AdaptationsChoice.

Variable findBetterMatchIndex : list string -> string -> Z.

(** One subscriber of [getAdaptationsChoice(type, adaptations)]: the keys
    of the two [distinctUntilChanged()], what was emitted (latest first)
    and how many times a selector function ran. *)
Record Chooser : Type := mkChooser {
  c_type : string;
  c_adaptations : list Adaptation;
  c_languagesKey : option AudioTrack.t;
  c_subtitlesKey : option (option TextTrack.t);
  c_emitted : list selection;
  c_evaluations : nat;
}.

(** Subscription: a cell replays its current value; [only] emits its
    value once. *)
Definition getAdaptationsChoice
  (e : Engine) (ty : string) (adaptations : list Adaptation) : Chooser :=
  if String.eqb ty "audio" then
    mkChooser ty adaptations (Some (languages e)) None
      [audioAdaptationChoice findBetterMatchIndex adaptations (languages e)]
      1
  else if String.eqb ty "text" then
    mkChooser ty adaptations None (Some (subtitles e))
      [textAdaptationChoice findBetterMatchIndex adaptations (subtitles e)]
      1
  else
    mkChooser ty adaptations None None [index_adaptation adaptations 0] 0.

Definition chooser_deliver (n : Notification) (c : Chooser) : Chooser :=
  match n with
  | Languages track =>
      if String.eqb (c_type c) "audio" then
        match c_languagesKey c with
        | Some previous =>
            if same_audioTrack previous track then c
            else
              mkChooser (c_type c) (c_adaptations c) (Some track)
                (c_subtitlesKey c)
                (audioAdaptationChoice findBetterMatchIndex
                   (c_adaptations c) track :: c_emitted c)
                (S (c_evaluations c))
        | None => c
        end
      else c
  | Subtitles track =>
      if String.eqb (c_type c) "text" then
        match c_subtitlesKey c with
        | Some previous =>
            if same_textTrack previous track then c
            else
              mkChooser (c_type c) (c_adaptations c) (c_languagesKey c)
                (Some track)
                (textAdaptationChoice findBetterMatchIndex
                   (c_adaptations c) track :: c_emitted c)
                (S (c_evaluations c))
        | None => c
        end
      else c
  | _ => c
  end.

End AdaptationsChoice.

(** ** The stream of buffer sizes *)

(** What a subscriber of the [bufferSizes] member has received, latest
    first: the cell's value at subscription, then every value written. *)
Definition bufferSizes_subscribe (e : Engine) (o : BufferSizesObservable)
  : list number :=
  match o with
  | BufSizesCell ty =>
      match bufSizes e ty with
      | Some n => [n]
      | None => []
      end
  | FreshCell n => [n]
  end.

Definition bufferSizes_deliver
  (o : BufferSizesObservable) (n : Notification) (received : list number)
  : list number :=
  match o, n with
  | BufSizesCell ty, BufSizes ty' v =>
      if String.eqb ty ty' then v :: received else received
  | _, _ => received
  end.

(** ** Vocabulary of the properties *)

(** The test of the loop of [getClosestBitrate] on the value [v]. *)
Definition qualifies (btr threshold v : number) : bool :=
  (v / btr <=? int 1 - threshold)%num.

(** A bitrate of a ladder: finite and not negative. *)
Definition is_bitrate (n : number) : bool :=
  match n with
  | Fin q => Qle_bool 0 q
  | _ => false
  end.

(** A bitrate that is strictly positive. *)
Definition is_positive_bitrate (n : number) : bool :=
  match n with
  | Fin q => negb (Qle_bool q 0)
  | _ => false
  end.

(** A finite number. *)
Definition is_finite (n : number) : bool :=
  match n with
  | Fin _ => true
  | _ => false
  end.

(** An ascending list: every value is at most the values after it. *)
Fixpoint ascending (bitrates : list number) : bool :=
  match bitrates with
  | [] => true
  | v :: rest => forallb (num_le v) rest && ascending rest
  end.

(** Every value of the ladder is the bitrate of a Representation. *)
Definition ladder_of
  (representations : list Representation) (bitrates : list number) : bool :=
  forallb
    (fun b => existsb (fun rep => (bitrate rep === b)%num) representations)
    bitrates.


(** A number held as a JavaScript value is what a setter stores for it:
    itself when it is strictly positive. *)
Definition strictly_positive_number (x : any) : option number :=
  match x with
  | ANumber n => if (n >? int 0)%num then Some n else None
  | _ => None
  end.

(** The comparison function that [getMaxUsefulBitrateforWidth] gives to
    [sort]. *)
Definition byWidth (a b : Representation) : number :=
  (width a - width b)%num.

(** No element of the list is put strictly after its successor. *)
Fixpoint in_order {A : Type} (compareFn : A -> A -> number) (l : list A)
  : Prop :=
  match l with
  | x :: (y :: _) as rest =>
      (compareFn x y >? int 0)%num = false /\ in_order compareFn rest
  | _ => True
  end.

(** The Representation that the combining function picks on the latest
    values that a subscriber holds. *)
Definition chosen_of (s : Subscriber) : option Representation :=
  chooseRepresentation (s_representations s) (s_bitrates s)
                       (s_usr s) (s_max s) (s_avr s).

(** Two subscriber states hold the same latest values. *)
Definition same_inputs (s s' : Subscriber) : Prop :=
  s_config s' = s_config s /\ s_type s' = s_type s /\
  s_bitrates s' = s_bitrates s /\
  s_representations s' = s_representations s /\
  s_usr s' = s_usr s /\ s_maxSet s' = s_maxSet s /\
  s_width s' = s_width s /\ s_hidden s' = s_hidden s /\
  s_max s' = s_max s /\ s_avr s' = s_avr s.

(** The key of the output [distinctUntilChanged] carries the identifier of
    the Representation [c]. *)
Definition key_matches (s : Subscriber) (c : option Representation) : Prop :=
  s_key s = Some c \/
  exists a b, s_key s = Some (Some a) /\ c = Some b /\
              String.eqb (id a) (id b) = true.

(** The setters of a bitrate and of a buffer size, each with the type of
    the cell it writes. *)
Definition bitrateSetters
  : list ((any -> Engine -> Engine * Notification) * string) :=
  [ (setAudioBitrate, "audio"%string); (setVideoBitrate, "video"%string);
    (setAudioMaxBitrate, "audio"%string);
    (setVideoMaxBitrate, "video"%string) ].

Definition bufferSizeSetters
  : list ((any -> Engine -> Engine * Notification) * string) :=
  [ (setAudioBufferSize, "audio"%string);
    (setVideoBufferSize, "video"%string) ].

(** The statement that a second call of a setter with the same value is
    suppressed as a duplicate, in two parts: the combining function does
    not run again for a bitrate, and the stream of buffer sizes delivers
    nothing more for a buffer size. *)
Definition duplicate_call_not_reevaluated : Prop :=
  forall setter ty, In (setter, ty) bitrateSetters ->
  forall (x : any) (e : Engine) (s s1 s2 : Subscriber),
    let n1 := snd (setter x e) in
    let n2 := snd (setter x (fst (setter x e))) in
    s_type s = ty -> deliver n1 s = Ok s1 -> deliver n2 s1 = Ok s2 ->
    s_evaluations s2 = s_evaluations s1.

Definition duplicate_call_not_redelivered : Prop :=
  forall setter ty, In (setter, ty) bufferSizeSetters ->
  forall (x : any) (e : Engine) (received : list number),
    let n1 := snd (setter x e) in
    let n2 := snd (setter x (fst (setter x e))) in
    bufferSizes_deliver (BufSizesCell ty) n2
      (bufferSizes_deliver (BufSizesCell ty) n1 received)
    = bufferSizes_deliver (BufSizesCell ty) n1 received.

Definition duplicate_call_is_suppressed : Prop :=
  duplicate_call_not_reevaluated /\ duplicate_call_not_redelivered.

(** ** Sample data *)

Definition Mbps (z : Z) : number := int (z * 1000000).

(** Widths 640, 1280, 1920, 3840 with bitrates 1M, 2M, 4M, 8M. *)
Definition scenario : list Representation :=
  [ mkRepresentation "640" (Mbps 1) (int 640);
    mkRepresentation "1280" (Mbps 2) (int 1280);
    mkRepresentation "1920" (Mbps 4) (int 1920);
    mkRepresentation "3840" (Mbps 8) (int 3840) ].

(** A video Adaptation whose Representations are listed from the widest
    to the narrowest. *)
Definition videoSample : Adaptation := {|
  type := "video";
  language := "";
  isAudioDescription := false;
  isClosedCaption := false;
  representations :=
    [ mkRepresentation "1280" (Mbps 2) (int 1280);
      mkRepresentation "640" (Mbps 1) (int 640) ];
  getAvailableBitrates := [Mbps 1; Mbps 2];
|}.

Definition audioSample : Adaptation := {|
  type := "audio";
  language := "fra";
  isAudioDescription := false;
  isClosedCaption := false;
  representations :=
    [ mkRepresentation "a64" (int 64000) NaN;
      mkRepresentation "a128" (int 128000) NaN ];
  getAvailableBitrates := [int 64000; int 128000];
|}.


Definition audioTrackSample (lang : string) (ad : bool) : Adaptation := {|
  type := "audio";
  language := lang;
  isAudioDescription := ad;
  isClosedCaption := false;
  representations := [mkRepresentation lang (int 64000) NaN];
  getAvailableBitrates := [int 64000];
|}.

Definition deviceSample : DeviceEvents := mkDeviceEvents (int 1000) false.

(** The engine built without options. *)
Definition engineSample : Engine := create noOptions.

(** The engine built with [limitVideoWidth: true]. *)
Definition engineLimitingWidth : Engine :=
  create (mkOptions None None None None None None None None (Some true) None).

Definition ladderSample : list number :=
  [int 300; int 750; int 1500; int 3000].

Definition audioCandidates : list Adaptation :=
  [ audioTrackSample "eng" false; audioTrackSample "fra" true;
    audioTrackSample "fra" false ].


(** The state of a subscriber of [audioSample] right after it subscribed
    to an engine built without options. *)
Definition subscriberSample : Subscriber :=
  mkSubscriber DEFAULTS "audio" [int 64000; int 128000]
    [ mkRepresentation "a64" (int 64000) NaN;
      mkRepresentation "a128" (int 128000) NaN ]
    Infinity Infinity (int 1000) false (VNum Infinity) (VNum (int 64000))
    1 (Some (VNum (int 64000))) (Some (VNum (int 64000)))
    (Some (Some (mkRepresentation "a64" (int 64000) NaN)))
    [Some (mkRepresentation "a64" (int 64000) NaN)] 1.

(** A matcher that knows exact equality of tags only: the index of the
    first tag equal to the requested one, and -1 when there is none.  It
    stands in for [findBetterMatchIndex] where an example needs a concrete
    matcher. *)
Fixpoint exactMatchIndex (languages : list string) (lang : string) : Z :=
  match languages with
  | [] => (-1)%Z
  | l :: rest =>
      if String.eqb l lang then 0%Z
      else
        let i := exactMatchIndex rest lang in
        if (i <? 0)%Z then (-1)%Z else (i + 1)%Z
  end.

(** ** Sequences of notifications and of calls *)

(** Delivery of the notifications of a list, in order; it stops at the
    first [TypeError]. *)
Fixpoint deliver_all (ns : list Notification) (s : Subscriber)
  : result Subscriber :=
  match ns with
  | [] => Ok s
  | n :: rest =>
      match deliver n s with
      | Ok s' => deliver_all rest s'
      | TypeError => TypeError
      end
  end.

Definition chooser_deliver_all
  (findBetterMatchIndex : list string -> string -> Z)
  (ns : list Notification) (c : Chooser) : Chooser :=
  fold_left (fun c n => chooser_deliver findBetterMatchIndex n c) ns c.

(** What [distinctUntilChanged] lets through of a sequence that follows
    the value [previous]: the key changes only when a value passes. *)
Fixpoint distinctUntilChanged {A : Type}
  (same : A -> A -> bool) (previous : A) (l : list A) : list A :=
  match l with
  | [] => []
  | x :: rest =>
      if same previous x then distinctUntilChanged same previous rest
      else x :: distinctUntilChanged same x rest
  end.

(** A call of one of the setters of the engine. *)
Inductive Call : Type :=
| SetAudioTrack (track : AudioTrack.t)
| SetTextTrack (track : option TextTrack.t)
| SetAudioBitrate (x : any)
| SetVideoBitrate (x : any)
| SetAudioMaxBitrate (x : any)
| SetVideoMaxBitrate (x : any)
| SetAudioBufferSize (x : any)
| SetVideoBufferSize (x : any).

Definition call (c : Call) (e : Engine) : Engine * Notification :=
  match c with
  | SetAudioTrack track => setAudioTrack track e
  | SetTextTrack track => setTextTrack track e
  | SetAudioBitrate x => setAudioBitrate x e
  | SetVideoBitrate x => setVideoBitrate x e
  | SetAudioMaxBitrate x => setAudioMaxBitrate x e
  | SetVideoMaxBitrate x => setVideoMaxBitrate x e
  | SetAudioBufferSize x => setAudioBufferSize x e
  | SetVideoBufferSize x => setVideoBufferSize x e
  end.

(** The engine after the calls of a list, in order. *)
Fixpoint calls (cs : list Call) (e : Engine) : Engine :=
  match cs with
  | [] => e
  | c :: rest => calls rest (fst (call c e))
  end.

(** ** [unsubscribe] *)

(** The variable [conns]: the [Subscription] that holds the connections of
    the two estimators, [None] once it is [null]; [released] lists the
    connections that were unsubscribed, in order. *)
Record Connections : Type := mkConnections {
  conns : option (list string);
  released : list string;
}.

(** [conns] after [averageBitratesConns.forEach(a => conns.add(a.connect()))]. *)
Definition connected : Connections :=
  mkConnections (Some ["audio"; "video"]%string) [].

(** [if (conns) { conns.unsubscribe(); conns = null; }] *)
Definition unsubscribe (c : Connections) : Connections :=
  match conns c with
  | Some held => mkConnections None (released c ++ held)
  | None => c
  end.

(** ** More vocabulary *)

(** Two emitted values are Representations of different identifiers. *)
Definition differ (a b : option Representation) : Prop :=
  match a, b with
  | Some x, Some y => String.eqb (id x) (id y) = false
  | _, _ => False
  end.

(** No value of the list has the identifier of its neighbour. *)
Fixpoint distinct_ids (l : list (option Representation)) : Prop :=
  match l with
  | a :: (b :: _) as rest => differ a b /\ distinct_ids rest
  | _ => True
  end.

(** The notification writes the pinned bitrate of the type [ty]. *)
Definition is_pin (ty : string) (n : Notification) : bool :=
  match n with
  | UsrBitrates ty' _ => String.eqb ty' ty
  | _ => false
  end.

(** The calls of [unsubscribe], [k] times in a row. *)
Fixpoint unsubscribe_times (k : nat) (c : Connections) : Connections :=
  match k with
  | O => c
  | S k => unsubscribe_times k (unsubscribe c)
  end.

(** ** Vocabulary of the further properties *)

(** What holds of the numeric cells of an engine. *)
Definition cells_positive (e : Engine) : Prop :=
  (usrBitrates_audio e >? int 0)%num = true /\
  (usrBitrates_video e >? int 0)%num = true /\
  ((maxAudioBitrate (config e) >? int 0)%num = true ->
   (maxBitrates_audio e >? int 0)%num = true) /\
  ((maxVideoBitrate (config e) >? int 0)%num = true ->
   (maxBitrates_video e >? int 0)%num = true) /\
  ((defaultBufferSize (config e) >? int 0)%num = true ->
   (bufSizes_audio e >? int 0)%num = true /\
   (bufSizes_video e >? int 0)%num = true /\
   (bufSizes_text e >? int 0)%num = true).

(** What holds of the output of a subscriber of an Adaptation whose array
    of Representations was [original] at the subscription. *)
Definition output_ok (original : list Representation) (s : Subscriber)
  : Prop :=
  Permutation original (s_representations s) /\
  distinct_ids (s_emitted s) /\
  match s_emitted s with
  | [] => s_key s = None
  | c :: _ => s_key s = Some c
  end /\
  (forall r, In (Some r) (s_emitted s) -> In r original) /\
  (length (s_emitted s) <= s_evaluations s)%nat.

(** The subscriber's array is not sorted by a delivery: it is not a video
    subscriber, or the width limit is off. *)
Definition never_sorts (s : Subscriber) : Prop :=
  s_type s <> "video"%string \/ limitVideoWidth (s_config s) = false.

(** A subscriber with a finite pin whose output key has the identifier of
    the pick. *)
Definition pinned (s : Subscriber) : Prop :=
  (s_usr s <? Infinity)%num = true /\ key_matches s (chosen_of s) /\
  never_sorts s.

(** The value that [debounceTime] holds back, when there is one, is the
    latest one that [distinctUntilChanged()] let through. *)
Definition pending_is_latest (s : Subscriber) : Prop :=
  s_pending s = None \/ s_pending s = s_avrKey s.

(** The cell that a call writes. *)
Definition cell_of (c : Call) : nat :=
  match c with
  | SetAudioTrack _ => 0
  | SetTextTrack _ => 1
  | SetAudioBitrate _ => 2
  | SetVideoBitrate _ => 3
  | SetAudioMaxBitrate _ => 4
  | SetVideoMaxBitrate _ => 5
  | SetAudioBufferSize _ => 6
  | SetVideoBufferSize _ => 7
  end.

(** ** More sample data *)

(** The engine built with [throttleWhenHidden: true]. *)
Definition engineThrottling : Engine :=
  create (mkOptions None None None None None None None None None (Some true)).

(** Notifications that reach a subscriber of [audioSample]: a pin, its
    release, a cap, estimates and the timer. *)
Definition notificationsSample : list Notification :=
  [ UsrBitrates "audio" (int 128000); AverageBitrates "audio" (int 200000);
    DebounceElapsed; UsrBitrates "audio" Infinity;
    MaxBitrates "audio" (int 100000); VideoWidth (int 640) ].

(** * Properties *)

(** ** Numbers *)

Lemma Qeq_bool_false_iff (x y : Q) : Qeq_bool x y = false <-> ~ x == y.
Proof.
  split.
  - intros H E. apply Qeq_bool_iff in E. congruence.
  - intros H. destruct (Qeq_bool x y) eqn:E; [|reflexivity].
    apply Qeq_bool_iff in E. contradiction.
Qed.

Lemma Qle_bool_false_iff (x y : Q) : Qle_bool x y = false <-> y < x.
Proof.
  split.
  - intros H. apply Qnot_le_lt. intros E. apply Qle_bool_iff in E. congruence.
  - intros H. destruct (Qle_bool x y) eqn:E; [|reflexivity].
    apply Qle_bool_iff in E. apply Qle_not_lt in E. contradiction.
Qed.

Lemma Qdiv_le_1 (a b : Q) : 0 < b -> (a / b <= 1 <-> a <= b).
Proof.
  intros Hb. split; intros H.
  - assert (E : a == (a / b) * b) by (field; lra).
    assert (H1 : a / b * b <= 1 * b) by (apply Qmult_le_compat_r; lra).
    rewrite <- E in H1. lra.
  - apply Qle_shift_div_r; lra.
Qed.

Lemma num_le_trans a b c :
  (a <=? b)%num = true -> (b <=? c)%num = true -> (a <=? c)%num = true.
Proof.
  destruct a as [x| | |], b as [y| | |], c as [z| | |]; cbn;
    try discriminate; auto.
  intros H1 H2. apply Qle_bool_iff in H1, H2. apply Qle_bool_iff. lra.
Qed.

Lemma num_lt_not_le a b : (a <? b)%num = true -> (b <=? a)%num = false.
Proof.
  destruct a as [x| | |], b as [y| | |]; cbn; try discriminate; auto.
  intros H. apply negb_true_iff in H. exact H.
Qed.


Lemma num_le_antisym a b :
  (a <=? b)%num = true -> (b <=? a)%num = true -> (a === b)%num = true.
Proof.
  destruct a as [x| | |], b as [y| | |]; cbn; try discriminate; auto.
  intros H1 H2. apply Qle_bool_iff in H1, H2. apply Qeq_bool_iff. lra.
Qed.

(** [===] on numbers respects itself on the right. *)
Lemma num_eq_congr v w x :
  (v === w)%num = true -> (x === v)%num = (x === w)%num.
Proof.
  destruct v as [a| | |], w as [b| | |]; cbn; try discriminate;
    destruct x as [c| | |]; cbn; try reflexivity.
  intros E. apply Qeq_bool_iff in E.
  destruct (Qeq_bool c a) eqn:E1, (Qeq_bool c b) eqn:E2; try reflexivity.
  - apply Qeq_bool_iff in E1. apply Qeq_bool_false_iff in E2.
    exfalso; apply E2. rewrite E1; exact E.
  - apply Qeq_bool_iff in E2. apply Qeq_bool_false_iff in E1.
    exfalso; apply E1. rewrite E2; symmetry; exact E.
Qed.


Lemma is_bitrate_le_refl v : is_bitrate v = true -> (v <=? v)%num = true.
Proof.
  destruct v as [a| | |]; cbn; try discriminate.
  intros _. apply Qle_bool_iff. lra.
Qed.

Lemma is_bitrate_nonneg v : is_bitrate v = true -> (int 0 <=? v)%num = true.
Proof. destruct v; cbn; auto. Qed.

Lemma is_positive_bitrate_is_bitrate v :
  is_positive_bitrate v = true -> is_bitrate v = true.
Proof.
  destruct v as [a| | |]; cbn; try discriminate.
  intros H. apply negb_true_iff, Qle_bool_false_iff in H.
  apply Qle_bool_iff. lra.
Qed.

(** Among bitrates, a value that is at most a target of zero is at most
    every other one. *)
Lemma le_zero_target u v target :
  is_bitrate u = true -> is_bitrate v = true ->
  (u <=? target)%num = true -> (int 0 <? target)%num = false ->
  (int 0 <=? target)%num = true ->
  (u <=? v)%num = true.
Proof.
  destruct u as [a| | |], v as [c| | |], target as [b| | |]; cbn;
    try discriminate.
  intros Ha Hc Hab Hb0 Hb.
  apply Qle_bool_iff in Ha, Hc, Hab, Hb. apply negb_false_iff in Hb0.
  apply Qle_bool_iff in Hb0. change (inject_Z 0) with 0 in *.
  apply Qle_bool_iff. lra.
Qed.

(** ** Lists *)

Lemma forallb_nth_error {A} (p : A -> bool) l i a :
  forallb p l = true -> nth_error l i = Some a -> p a = true.
Proof.
  intros H Hi. apply nth_error_In in Hi.
  rewrite forallb_forall in H. auto.
Qed.

Lemma forallb_impl {A} (p q : A -> bool) l :
  (forall x, p x = true -> q x = true) ->
  forallb p l = true -> forallb q l = true.
Proof. intros H. rewrite !forallb_forall. auto. Qed.

Lemma find_ext {A} (l : list A) (p q : A -> bool) :
  (forall x, p x = q x) -> find l p = find l q.
Proof.
  intros H. induction l as [|x l IH]; cbn; [reflexivity|].
  rewrite H, IH. reflexivity.
Qed.

Lemma find_Some {A} (l : list A) (p : A -> bool) r :
  find l p = Some r -> In r l /\ p r = true.
Proof.
  induction l as [|x l IH]; cbn; [discriminate|].
  destruct (p x) eqn:E.
  - intros [= <-]. auto.
  - intros H. destruct (IH H). auto.
Qed.

Lemma find_existsb {A} (l : list A) (p : A -> bool) :
  existsb p l = true -> exists r, find l p = Some r.
Proof.
  induction l as [|x l IH]; cbn; [discriminate|].
  destruct (p x); [eauto|]. cbn. exact IH.
Qed.

Lemma ascending_nth_error bitrates :
  ascending bitrates = true ->
  forall i j a b, (i < j)%nat ->
    nth_error bitrates i = Some a -> nth_error bitrates j = Some b ->
    (a <=? b)%num = true.
Proof.
  induction bitrates as [|v rest IH]; intros Hasc i j a b Hij Ha Hb.
  - destruct i; discriminate.
  - cbn [ascending] in Hasc. apply andb_prop in Hasc.
    destruct Hasc as [Hv Hrest].
    destruct j as [|j]; [lia|]. cbn [nth_error] in Hb.
    destruct i as [|i].
    + cbn in Ha. injection Ha as <-.
      apply (forallb_nth_error _ _ _ _ Hv Hb).
    + cbn [nth_error] in Ha. apply (IH Hrest i j); auto. lia.
Qed.

(** ** [getClosestBitrate] *)

Lemma index_num_Some bitrates i v :
  nth_error bitrates i = Some v -> index_num bitrates i = VNum v.
Proof. unfold index_num; intros ->; reflexivity. Qed.

(** The loop, started at index [n - 1]: it stops at the highest index
    below [n] whose value passes the test, and falls through to
    [bitrates[0]] when there is none. *)
Lemma getClosestBitrate_loop_spec bitrates btr threshold n :
  (n <= length bitrates)%nat ->
  (exists i v,
      (i < n)%nat /\ nth_error bitrates i = Some v /\
      qualifies btr threshold v = true /\
      (forall j w, (i < j < n)%nat -> nth_error bitrates j = Some w ->
                   qualifies btr threshold w = false) /\
      getClosestBitrate_loop bitrates btr threshold n = VNum v)
  \/ ((forall j w, (j < n)%nat -> nth_error bitrates j = Some w ->
                   qualifies btr threshold w = false) /\
      getClosestBitrate_loop bitrates btr threshold n = index_num bitrates 0).
Proof.
  induction n as [|n IH]; intros Hn.
  - right; split; [intros j w Hj; lia | reflexivity].
  - assert (Hlt : (n < length bitrates)%nat) by lia.
    destruct (nth_error bitrates n) as [v|] eqn:Hv;
      [|apply nth_error_None in Hv; lia].
    cbn [getClosestBitrate_loop].
    rewrite (index_num_Some _ _ _ Hv); cbn [ToNumber].
    fold (qualifies btr threshold v).
    destruct (qualifies btr threshold v) eqn:Hq.
    + left; exists n, v; repeat split; auto; intros j w Hj; lia.
    + destruct IH as [(i & u & Hi & Hu & Hqu & Habove & Hres) | [Hnone Hres]];
        [lia | |].
      * left; exists i, u; repeat split; auto; try lia.
        intros j w Hj Hw.
        destruct (Nat.eq_dec j n) as [->|Hne];
          [congruence | apply (Habove j w); [lia | assumption]].
      * right; split; [|assumption].
        intros j w Hj Hw.
        destruct (Nat.eq_dec j n) as [->|Hne];
          [congruence | apply (Hnone j w); [lia | assumption]].
Qed.

(** The scan of [getClosestBitrate] over a whole non-empty list. *)
Lemma getClosestBitrate_scan lowest rest btr threshold :
  let bitrates := lowest :: rest in
  (exists i v,
      nth_error bitrates i = Some v /\
      qualifies btr threshold v = true /\
      (forall j w, (i < j)%nat -> nth_error bitrates j = Some w ->
                   qualifies btr threshold w = false) /\
      getClosestBitrate bitrates btr threshold = VNum v)
  \/ ((forall w, In w bitrates -> qualifies btr threshold w = false) /\
      getClosestBitrate bitrates btr threshold = VNum lowest).
Proof.
  intros bitrates. unfold getClosestBitrate.
  destruct (getClosestBitrate_loop_spec bitrates btr threshold
              (length bitrates) (Nat.le_refl _))
    as [(i & v & Hi & Hv & Hq & Habove & Hres) | [Hnone Hres]].
  - left; exists i, v; repeat split; auto.
    intros j w Hj Hw. apply (Habove j w); [|assumption].
    split; [assumption|]. apply nth_error_Some. congruence.
  - right; split; [|exact Hres].
    intros w Hw. apply In_nth_error in Hw. destruct Hw as [j Hj].
    apply (Hnone j w); [|assumption]. apply nth_error_Some. congruence.
Qed.

(** On a non-empty list the result is a member of the list. *)
Lemma getClosestBitrate_member lowest rest btr threshold :
  exists v, getClosestBitrate (lowest :: rest) btr threshold = VNum v /\
            In v (lowest :: rest).
Proof.
  destruct (getClosestBitrate_scan lowest rest btr threshold)
    as [(i & v & Hv & _ & _ & Hres) | [_ Hres]].
  - exists v. split; [assumption|]. eapply nth_error_In; eassumption.
  - exists lowest. split; [assumption | left; reflexivity].
Qed.

(** With no threshold and a target that is not negative, a bitrate passes
    the test of the loop exactly when it is at most the target and the
    target is not zero. *)
Lemma qualifies_no_threshold (target v : number) :
  is_bitrate v = true -> (int 0 <=? target)%num = true ->
  qualifies target (int 0) v = (v <=? target)%num && (int 0 <? target)%num.
Proof.
  unfold qualifies; destruct v as [a| | |]; cbn [is_bitrate]; try discriminate.
  intros Ha. apply Qle_bool_iff in Ha.
  destruct target as [b| | |]; cbn [num_le]; try discriminate.
  - intros Hb. apply Qle_bool_iff in Hb. change (0 <= b) in Hb.
    cbn [num_div num_lt int]. change (inject_Z 0) with 0.
    change (inject_Z 1) with 1.
    destruct (Qeq_bool b 0) eqn:Eb.
    + apply Qeq_bool_iff in Eb.
      assert (E : Qle_bool b 0 = true) by (apply Qle_bool_iff; lra).
      rewrite E, andb_false_r.
      destruct (Qeq_bool a 0); [reflexivity|].
      rewrite (proj2 (Qle_bool_iff 0 a) Ha). reflexivity.
    + apply Qeq_bool_false_iff in Eb.
      assert (Hpos : 0 < b) by lra.
      assert (E : Qle_bool b 0 = false) by (apply Qle_bool_false_iff; lra).
      rewrite E, andb_true_r. cbn [num_sub num_le].
      destruct (Qle_bool a b) eqn:Eab.
      * apply Qle_bool_iff. apply Qle_bool_iff in Eab.
        setoid_replace (1 - 0) with 1 by ring.
        apply Qdiv_le_1; assumption.
      * apply Qle_bool_false_iff. apply Qle_bool_false_iff in Eab.
        setoid_replace (1 - 0) with 1 by ring.
        apply Qnot_le_lt. intros H.
        apply (proj1 (Qdiv_le_1 a b Hpos)) in H. lra.
  - intros _. reflexivity.
Qed.

(** Dividing a strictly positive bitrate by zero gives [+Infinity], which
    passes the test of the loop for no threshold that is at least 0. *)
Lemma qualifies_zero_target v threshold :
  is_positive_bitrate v = true -> (int 0 <=? threshold)%num = true ->
  qualifies (int 0) threshold v = false.
Proof.
  unfold qualifies. destruct v as [a| | |]; cbn [is_positive_bitrate];
    try discriminate.
  intros Ha Ht. apply negb_true_iff in Ha.
  pose proof Ha as Ha'. apply Qle_bool_false_iff in Ha'.
  cbn [num_div int]. change (Qeq_bool (inject_Z 0) 0) with true. cbn iota.
  assert (E1 : Qeq_bool a 0 = false) by (apply Qeq_bool_false_iff; lra).
  assert (E2 : Qle_bool 0 a = true) by (apply Qle_bool_iff; lra).
  rewrite E1, E2.
  destruct threshold; cbn in Ht |- *; try discriminate; reflexivity.
Qed.

Lemma getClosestBitrate_zero_target lowest rest threshold :
  forallb is_positive_bitrate (lowest :: rest) = true ->
  (int 0 <=? threshold)%num = true ->
  getClosestBitrate (lowest :: rest) (int 0) threshold = VNum lowest.
Proof.
  intros Hpos Ht.
  destruct (getClosestBitrate_scan lowest rest (int 0) threshold)
    as [(i & v & Hv & Hq & _) | [_ Hres]]; [|exact Hres].
  rewrite qualifies_zero_target in Hq; [discriminate| |assumption].
  apply (forallb_nth_error _ _ _ _ Hpos Hv).
Qed.

(** Threshold 0, target at least the lowest value: the largest value of
    the ladder that is at most the target. *)
Lemma getClosestBitrate_largest_below lowest rest target :
  let bitrates := lowest :: rest in
  ascending bitrates = true -> forallb is_bitrate bitrates = true ->
  (lowest <=? target)%num = true ->
  exists v,
    getClosestBitrate bitrates target (int 0) = VNum v /\
    In v bitrates /\ (v <=? target)%num = true /\
    forall u, In u bitrates -> (u <=? target)%num = true ->
              (u <=? v)%num = true.
Proof.
  intros bitrates Hasc Hbit Hlow. subst bitrates.
  assert (Hlowest : is_bitrate lowest = true)
    by (apply (forallb_nth_error _ _ 0%nat lowest Hbit); reflexivity).
  assert (Htarget : (int 0 <=? target)%num = true)
    by (eapply num_le_trans; [apply is_bitrate_nonneg|]; eassumption).
  destruct (getClosestBitrate_scan lowest rest target (int 0))
    as [(i & v & Hv & Hq & Habove & Hres) | [Hnone Hres]].
  - assert (Hvb : is_bitrate v = true)
      by (apply (forallb_nth_error _ _ _ _ Hbit Hv)).
    rewrite (qualifies_no_threshold _ _ Hvb Htarget) in Hq.
    apply andb_prop in Hq. destruct Hq as [Hvt Hpos].
    exists v. repeat split; auto.
    + eapply nth_error_In; eassumption.
    + intros u Hu Hut. apply In_nth_error in Hu. destruct Hu as [j Hj].
      assert (Hub : is_bitrate u = true)
        by (apply (forallb_nth_error _ _ _ _ Hbit Hj)).
      destruct (Nat.lt_trichotomy j i) as [Hlt | [-> | Hgt]].
      * apply (ascending_nth_error _ Hasc j i); auto.
      * assert (u = v) by congruence. subst u.
        apply is_bitrate_le_refl; assumption.
      * pose proof (Habove j u Hgt Hj) as Hnq.
        rewrite (qualifies_no_threshold _ _ Hub Htarget) in Hnq.
        rewrite Hut, Hpos in Hnq. discriminate.
  - exists lowest. repeat split; auto.
    + left; reflexivity.
    + intros u Hu Hut.
      assert (Hub : is_bitrate u = true)
        by (rewrite forallb_forall in Hbit; auto).
      pose proof (Hnone lowest (or_introl eq_refl)) as Hnq.
      rewrite (qualifies_no_threshold _ _ Hlowest Htarget) in Hnq.
      rewrite Hlow in Hnq. cbn [andb] in Hnq.
      apply (le_zero_target u lowest target); auto.
Qed.




(** The ladder 300k, 750k, 1500k, 3000k with an estimate of 1000k: 750k
    without margin, 300k with the margin 0.3. *)
Example getClosestBitrate_margin :
  let ladder := [int 300000; int 750000; int 1500000; int 3000000] in
  getClosestBitrate ladder (int 1000000) (int 0) = VNum (int 750000)
  /\ getClosestBitrate ladder (int 1000000) (defaultBufferThreshold DEFAULTS)
     = VNum (int 300000).
Proof. split; reflexivity. Qed.

(** ** [Array.prototype.sort] *)

Section Sorting.

Context {A : Type} (compareFn : A -> A -> number).
Hypothesis compareFn_asym :
  forall x y, (compareFn x y >? int 0)%num = true ->
              (compareFn y x >? int 0)%num = false.

Lemma sort_insert_in_order x l :
  in_order compareFn l -> in_order compareFn (sort_insert compareFn x l).
Proof.
  induction l as [|y l IH]; intros Hl; [exact I|].
  cbn [sort_insert].
  destruct (compareFn x y >? int 0)%num eqn:E.
  - assert (Hl' : in_order compareFn l)
      by (destruct l; [exact I | apply Hl]).
    specialize (IH Hl').
    destruct l as [|z l]; cbn [sort_insert] in *.
    + split; [apply compareFn_asym; assumption | exact I].
    + destruct (compareFn x z >? int 0)%num eqn:E'.
      * split; [apply Hl | exact IH].
      * split; [apply compareFn_asym; assumption | exact IH].
  - split; assumption.
Qed.

Lemma Array_sort_in_order l : in_order compareFn (Array_sort compareFn l).
Proof.
  induction l as [|x l IH]; [exact I|].
  cbn [Array_sort]. apply sort_insert_in_order. exact IH.
Qed.

Lemma Array_sort_of_in_order l :
  in_order compareFn l -> Array_sort compareFn l = l.
Proof.
  induction l as [|x l IH]; intros Hl; [reflexivity|].
  cbn [Array_sort]. rewrite IH by (destruct l; [exact I | apply Hl]).
  destruct l as [|y l]; [reflexivity|].
  cbn [sort_insert]. destruct Hl as [-> _]. reflexivity.
Qed.

(** Sorting an array that [sort] has sorted changes nothing. *)
Lemma Array_sort_idempotent l :
  Array_sort compareFn (Array_sort compareFn l) = Array_sort compareFn l.
Proof. apply Array_sort_of_in_order, Array_sort_in_order. Qed.

Lemma sort_insert_Permutation x l :
  Permutation (x :: l) (sort_insert compareFn x l).
Proof.
  induction l as [|y l IH]; [reflexivity|].
  cbn [sort_insert]. destruct (compareFn x y >? int 0)%num; [|reflexivity].
  rewrite perm_swap. apply perm_skip. exact IH.
Qed.

End Sorting.

(** [sort] keeps the elements of the array. *)
Lemma Array_sort_Permutation {A} (compareFn : A -> A -> number) l :
  Permutation l (Array_sort compareFn l).
Proof.
  induction l as [|x l IH]; [reflexivity|].
  cbn [Array_sort]. rewrite <- sort_insert_Permutation.
  apply perm_skip. exact IH.
Qed.

Lemma byWidth_asym x y :
  (byWidth x y >? int 0)%num = true -> (byWidth y x >? int 0)%num = false.
Proof.
  unfold byWidth, num_gt.
  destruct (width x) as [a| | |], (width y) as [b| | |]; cbn;
    try discriminate; try reflexivity.
  change (inject_Z 0) with 0.
  intros H. apply negb_true_iff, Qle_bool_false_iff in H.
  apply negb_false_iff, Qle_bool_iff. lra.
Qed.

(** ** [getMaxUsefulBitrateforWidth] *)

(** What the call leaves in the array it was given: the array sorted by
    width. *)
Lemma getMaxUsefulBitrateforWidth_array representations targetWidth :
  snd (getMaxUsefulBitrateforWidth representations targetWidth)
  = Array_sort byWidth representations.
Proof.
  unfold getMaxUsefulBitrateforWidth. fold byWidth.
  destruct (Array_find _ _); [|reflexivity].
  destruct (0 <? _)%nat; [|reflexivity].
  destruct (nth_error _ _); reflexivity.
Qed.

(** The array after the call holds the elements it held before. *)
Lemma getMaxUsefulBitrateforWidth_Permutation representations targetWidth :
  Permutation representations
    (snd (getMaxUsefulBitrateforWidth representations targetWidth)).
Proof.
  rewrite getMaxUsefulBitrateforWidth_array. apply Array_sort_Permutation.
Qed.

(** A second call on the array that a first call has sorted gives the
    result of the first call. *)
Lemma getMaxUsefulBitrateforWidth_sorted representations targetWidth :
  getMaxUsefulBitrateforWidth (Array_sort byWidth representations) targetWidth
  = getMaxUsefulBitrateforWidth representations targetWidth.
Proof.
  unfold getMaxUsefulBitrateforWidth. fold byWidth.
  rewrite (Array_sort_idempotent byWidth byWidth_asym). reflexivity.
Qed.

(** A Representation never passes the test [r.width <= maxWidth], whose
    right operand is a Representation: the filtered list is empty. *)
Lemma filter_width_le_object representations (maxWidth : Representation) :
  filter (fun r => (width r <=? ToNumber (VRep maxWidth))%num)
         representations = [].
Proof.
  induction representations as [|r l IH]; [reflexivity|].
  cbn [filter ToNumber]. destruct (width r); cbn [num_le]; exact IH.
Qed.

(** With a target width above every width, the result is [Infinity]. *)
Lemma getMaxUsefulBitrateforWidth_unbounded representations targetWidth :
  (forall r, In r representations ->
             (width r <? targetWidth)%num = true) ->
  fst (getMaxUsefulBitrateforWidth representations targetWidth)
  = VNum Infinity.
Proof.
  intros Hall. unfold getMaxUsefulBitrateforWidth, Array_find.
  destruct (List.find _ _) as [r|] eqn:E; [|reflexivity].
  apply List.find_some in E. destruct E as [Hin Hge].
  apply (Permutation_in _ (Permutation_sym (Array_sort_Permutation _ _)))
    in Hin.
  apply Hall, num_lt_not_le in Hin. unfold num_ge in Hge. congruence.
Qed.

(** With a target width that some Representation reaches, the result is
    the Representation at the head of the sorted array, not a number. *)
Lemma getMaxUsefulBitrateforWidth_object representations targetWidth r :
  In r representations -> (width r >=? targetWidth)%num = true ->
  exists first,
    fst (getMaxUsefulBitrateforWidth representations targetWidth)
    = VRep first /\ In first representations.
Proof.
  intros Hin Hge. unfold getMaxUsefulBitrateforWidth, Array_find.
  destruct (List.find _ _) as [maxWidth|] eqn:E.
  - rewrite filter_width_le_object. cbn [length Nat.ltb Nat.leb fst].
    apply (Permutation_in _ (Array_sort_Permutation
                               (fun a b => (width a - width b)%num) _))
      in Hin.
    destruct (Array_sort _ representations) as [|first l] eqn:Es;
      [destruct Hin|].
    exists first. split; [reflexivity|].
    apply (Permutation_in _ (Permutation_sym (Array_sort_Permutation
                               (fun a b => (width a - width b)%num) _))).
    rewrite Es. left; reflexivity.
  - exfalso.
    apply (Permutation_in _ (Array_sort_Permutation
                               (fun a b => (width a - width b)%num) _))
      in Hin.
    pose proof (List.find_none _ _ E _ Hin) as Hn. cbn beta in Hn.
    congruence.
Qed.

(** C1.  On the widths 640, 1280, 1920, 3840 with the bitrates 1M, 2M, 4M,
    8M and the target width 1920, [getMaxUsefulBitrateforWidth] returns
    the Representation of width 640 and not the bitrate 4M: the list of
    the Representations with [r.width <= maxWidth] is empty, because
    [maxWidth] is a Representation and not a width. *)
Theorem getMaxUsefulBitrateforWidth_scenario :
  fst (getMaxUsefulBitrateforWidth scenario (int 1920))
  = VRep (mkRepresentation "640" (Mbps 1) (int 640))
  /\ fst (getMaxUsefulBitrateforWidth scenario (int 1920)) <> VNum (Mbps 4)
  /\ Array_find (fun r => (width r >=? int 1920)%num) scenario
     = Some (mkRepresentation "1920" (Mbps 4) (int 1920))
  /\ filter (fun r => (width r <=?
                       ToNumber (VRep (mkRepresentation "1920" (Mbps 4)
                                                        (int 1920))))%num)
            scenario = [].
Proof. repeat split. discriminate. Qed.

(** C4.  On the Representations of widths 640, 1280, 1920, 3840 the
    results for the target widths 640 and 1920 are the same Representation
    object, which compares to no number: the results are not ordered, so
    the function is not non-decreasing in the width.  Above every width
    the result is [Infinity]. *)
Theorem getMaxUsefulBitrateforWidth_not_monotone :
  let at_640 := fst (getMaxUsefulBitrateforWidth scenario (int 640)) in
  let at_1920 := fst (getMaxUsefulBitrateforWidth scenario (int 1920)) in
  let at_4000 := fst (getMaxUsefulBitrateforWidth scenario (int 4000)) in
  at_640 = VRep (mkRepresentation "640" (Mbps 1) (int 640))
  /\ at_1920 = VRep (mkRepresentation "640" (Mbps 1) (int 640))
  /\ at_4000 = VNum Infinity
  /\ (ToNumber at_640 <=? ToNumber at_1920)%num = false
  /\ (ToNumber at_1920 <=? ToNumber at_4000)%num = false.
Proof. repeat split. Qed.

(** C5.  A call of [getMaxUsefulBitrateforWidth] on an array that lists
    the width 1280 before the width 640 leaves the array in the other
    order; so does a subscription to the Representations of a video
    Adaptation with such an array when [limitVideoWidth] is set. *)
Theorem getMaxUsefulBitrateforWidth_reorders :
  representations videoSample
  = [ mkRepresentation "1280" (Mbps 2) (int 1280);
      mkRepresentation "640" (Mbps 1) (int 640) ]
  /\ snd (getMaxUsefulBitrateforWidth (representations videoSample)
                                      (int 1000))
     = [ mkRepresentation "640" (Mbps 1) (int 640);
         mkRepresentation "1280" (Mbps 2) (int 1280) ]
  /\ getBufferAdapters engineLimitingWidth videoSample
     = Ok (Combined (VNum (Mbps 1)), BufSizesCell "video")
  /\ exists s,
      subscribe engineLimitingWidth deviceSample videoSample (VNum (Mbps 1))
      = Ok s /\
      s_representations s
      = [ mkRepresentation "640" (Mbps 1) (int 640);
          mkRepresentation "1280" (Mbps 2) (int 1280) ].
Proof.
  repeat split. eexists. split; [vm_compute; reflexivity | reflexivity].
Qed.

(** ** [def] and the setters *)

(** [def] returns [x] when [x] is a number strictly above 0, and [val]
    otherwise. *)
Lemma def_spec x val :
  def x val = match strictly_positive_number x with
              | Some n => n
              | None => val
              end.
Proof.
  destruct x as [| |b|n|s|]; try reflexivity.
  unfold def, strictly_positive_number.
  change (String.eqb (typeof (ANumber n)) "number") with true. cbn iota.
  destruct (n >? int 0)%num; reflexivity.
Qed.


(** C8.  Every numeric setter is a total function of its argument [x] and
    of the engine.  The four bitrate setters store [x] when [x] is a
    number strictly above 0 and [Infinity] otherwise; the two buffer size
    setters store [x] when [x] is a number strictly above 0 and the
    configured default buffer size otherwise. *)
Theorem setters_normalize (x : any) (e : Engine) :
  let stored sentinel :=
    match strictly_positive_number x with
    | Some n => n
    | None => sentinel
    end in
  (strictly_positive_number x = None <->
   (forall n, x = ANumber n -> (n >? int 0)%num = false))
  /\ (forall n, strictly_positive_number x = Some n ->
                x = ANumber n /\ (n >? int 0)%num = true)
  /\ setAudioBitrate x e
     = (with_usrBitrates_audio e (stored Infinity),
        UsrBitrates "audio" (stored Infinity))
  /\ setVideoBitrate x e
     = (with_usrBitrates_video e (stored Infinity),
        UsrBitrates "video" (stored Infinity))
  /\ setAudioMaxBitrate x e
     = (with_maxBitrates_audio e (stored Infinity),
        MaxBitrates "audio" (stored Infinity))
  /\ setVideoMaxBitrate x e
     = (with_maxBitrates_video e (stored Infinity),
        MaxBitrates "video" (stored Infinity))
  /\ setAudioBufferSize x e
     = (with_bufSizes_audio e (stored (defaultBufferSize (config e))),
        BufSizes "audio" (stored (defaultBufferSize (config e))))
  /\ setVideoBufferSize x e
     = (with_bufSizes_video e (stored (defaultBufferSize (config e))),
        BufSizes "video" (stored (defaultBufferSize (config e))))
  /\ usrBitrates (fst (setAudioBitrate x e)) "audio" = Some (stored Infinity)
  /\ usrBitrates (fst (setVideoBitrate x e)) "video" = Some (stored Infinity)
  /\ getAudioMaxBitrate (fst (setAudioMaxBitrate x e)) = stored Infinity
  /\ getVideoMaxBitrate (fst (setVideoMaxBitrate x e)) = stored Infinity
  /\ getAudioBufferSize (fst (setAudioBufferSize x e))
     = stored (defaultBufferSize (config e))
  /\ getVideoBufferSize (fst (setVideoBufferSize x e))
     = stored (defaultBufferSize (config e)).
Proof.
  intros stored.
  assert (Hdef : forall val, def x val = stored val)
    by (intros val; apply def_spec).
  split; [|split].
  - destruct x as [| |b|n|s|]; cbn [strictly_positive_number];
      try (split; [intros _ n [=] | reflexivity]).
    destruct (n >? int 0)%num eqn:E; split; try discriminate.
    + intros H. specialize (H n eq_refl). congruence.
    + intros _ n' [= <-]. exact E.
    + reflexivity.
  - intros n. destruct x as [| |b|m|s|]; cbn [strictly_positive_number];
      try discriminate.
    destruct (m >? int 0)%num eqn:E; [|discriminate].
    intros [= <-]. auto.
  - unfold setAudioBitrate, setVideoBitrate, setAudioMaxBitrate,
      setVideoMaxBitrate, setAudioBufferSize, setVideoBufferSize.
    rewrite !Hdef. repeat split.
Qed.

Lemma setters_normalize_witness :
  getAudioBufferSize
    (fst (setAudioBufferSize (ANumber (int 10)) engineSample)) = int 10
  /\ getAudioBufferSize
       (fst (setAudioBufferSize (ANumber (int 0)) engineSample)) = int 30
  /\ getVideoMaxBitrate
       (fst (setVideoMaxBitrate (AString "4000000") engineSample)) = Infinity
  /\ usrBitrates (fst (setAudioBitrate (ANumber NaN) engineSample)) "audio"
     = Some Infinity.
Proof.
  split; [|split; [|split]].
  - apply (setters_normalize (ANumber (int 10)) engineSample).
  - apply (setters_normalize (ANumber (int 0)) engineSample).
  - apply (setters_normalize (AString "4000000") engineSample).
  - apply (setters_normalize (ANumber NaN) engineSample).
Defined.

(** ** The combining function *)



(** ** The selection of an Adaptation *)

(** C6.  For every matcher, list of audio candidates and audio preference:
    the candidates are filtered to those whose [isAudioDescription] equals
    the flag of the preference and the matcher runs on the languages of
    the filtered list; the selector yields the filtered candidate at the
    index that the matcher returns, and the first candidate of the whole
    list when the matcher returns no index; for a non-empty list it always
    yields a candidate.  The stream emits that result at subscription and
    for a new preference. *)
Theorem audio_selection
  (findBetterMatchIndex : list string -> string -> Z)
  (adaptations : list Adaptation) (track : AudioTrack.t) (e : Engine) :
  let filtered :=
    filter (fun a => Bool.eqb (isAudioDescription a)
                              (AudioTrack.audioDescription track))
           adaptations in
  let index :=
    findBetterMatchIndex (map language filtered) (AudioTrack.language track) in
  let chosen := audioAdaptationChoice findBetterMatchIndex adaptations track in
  (forall a, (0 <= index)%Z -> nth_error filtered (Z.to_nat index) = Some a ->
             chosen = Selected a)
  /\ ((index < 0)%Z -> chosen = index_adaptation adaptations 0)
  /\ (forall first rest, adaptations = first :: rest ->
        ((index < 0)%Z -> chosen = Selected first) /\
        exists a, chosen = Selected a /\ In a adaptations)
  /\ c_emitted (chooser_deliver findBetterMatchIndex (Languages track)
                  (getAdaptationsChoice findBetterMatchIndex e "audio"
                     adaptations))
     = (if same_audioTrack (languages e) track then [] else [chosen])
       ++ [audioAdaptationChoice findBetterMatchIndex adaptations
             (languages e)].
Proof.
  intros filtered index chosen.
  assert (Hchosen :
            chosen = match (if (index >=? 0)%Z
                            then index_adaptation filtered (Z.to_nat index)
                            else Null) with
                     | Selected a => Selected a
                     | _ => index_adaptation adaptations 0
                     end) by reflexivity.
  split; [|split; [|split]].
  - intros a Hi Ha. rewrite Hchosen.
    apply Z.geb_le in Hi. rewrite Hi. unfold index_adaptation. rewrite Ha.
    reflexivity.
  - intros Hi. rewrite Hchosen.
    destruct (index >=? 0)%Z eqn:E; [apply Z.geb_le in E; lia | reflexivity].
  - intros first rest ->. split.
    + intros Hi. rewrite Hchosen.
      destruct (index >=? 0)%Z eqn:E; [apply Z.geb_le in E; lia | reflexivity].
    + rewrite Hchosen.
      destruct (index >=? 0)%Z;
        [|exists first; split; [reflexivity | left; reflexivity]].
      unfold index_adaptation at 1.
      destruct (nth_error filtered (Z.to_nat index)) as [a|] eqn:Ha.
      * exists a. split; [reflexivity|].
        apply nth_error_In in Ha. apply filter_In in Ha. tauto.
      * exists first. split; [reflexivity | left; reflexivity].
  - cbn. destruct (same_audioTrack (languages e) track); reflexivity.
Qed.

Lemma audio_selection_witness :
  audioAdaptationChoice exactMatchIndex audioCandidates
    (AudioTrack.make 1 "fra" false)
  = Selected (audioTrackSample "fra" false)
  /\ audioAdaptationChoice exactMatchIndex audioCandidates
       (AudioTrack.make 2 "deu" false)
     = Selected (audioTrackSample "eng" false).
Proof.
  split.
  - apply (proj1 (audio_selection exactMatchIndex audioCandidates
                    (AudioTrack.make 1 "fra" false) engineSample)
             (audioTrackSample "fra" false)); [vm_compute; discriminate|].
    reflexivity.
  - apply (proj1 (proj1 (proj2 (proj2
                    (audio_selection exactMatchIndex audioCandidates
                       (AudioTrack.make 2 "deu" false) engineSample)))
             (audioTrackSample "eng" false)
             [audioTrackSample "fra" true; audioTrackSample "fra" false]
             eq_refl)).
    reflexivity.
Defined.



(** ** The stream of chosen Representations *)

(** The first run of the combining function always emits its result. *)
Lemma subscribe_emits e d a startWith usr maxSet avr :
  usrBitrates e (type a) = Some usr ->
  maxBitrates e (type a) = Some maxSet ->
  averageBitrates e (type a) = Some avr ->
  exists s reps max,
    subscribe e d a startWith = Ok s /\
    (max, reps) =
      (if String.eqb (type a) "video" then
         videoMaxBitrates (config e) (getAvailableBitrates a)
           (representations a) maxSet (videoWidth d) (inBackground d)
       else (VNum maxSet, representations a)) /\
    s_representations s = reps /\
    s_emitted s =
      [chooseRepresentation reps (getAvailableBitrates a) usr max startWith] /\
    s_evaluations s = 1%nat.
Proof.
  intros Hu Hm Ha. unfold subscribe. rewrite Hu, Hm, Ha.
  unfold refreshMax. cbn [s_type s_config s_bitrates s_representations].
  destruct (if String.eqb (type a) "video" then _ else _)
    as [max reps] eqn:E.
  eexists _, reps, max. repeat split.
Qed.

(** The pick for a target that equals the lowest value of the ladder. *)
Lemma choose_lowest reps lowest rest btr :
  let bitrates := lowest :: rest in
  forallb is_positive_bitrate bitrates = true ->
  ascending bitrates = true ->
  ladder_of reps bitrates = true ->
  (btr === lowest)%num = true ->
  exists r,
    find reps (fun rep => strict_equals (VNum (bitrate rep))
                            (getClosestBitrate bitrates btr (int 0)))
    = Some r /\
    find reps (fun rep => (bitrate rep === lowest)%num) = Some r.
Proof.
  intros bitrates Hpos Hasc Hlad Hbtr. subst bitrates.
  assert (Hbit : forallb is_bitrate (lowest :: rest) = true)
    by (revert Hpos; apply forallb_impl, is_positive_bitrate_is_bitrate).
  assert (Hlow : is_bitrate lowest = true)
    by (apply (forallb_nth_error _ _ 0%nat lowest Hbit); reflexivity).
  assert (Hle : (lowest <=? btr)%num = true /\ (btr <=? lowest)%num = true).
  { destruct btr as [b| | |], lowest as [c| | |]; cbn in Hbtr, Hlow |- *;
      try discriminate.
    apply Qeq_bool_iff in Hbtr. split; apply Qle_bool_iff; lra. }
  destruct Hle as [Hle1 Hle2].
  destruct (getClosestBitrate_largest_below lowest rest btr Hasc Hbit Hle1)
    as (v & Hres & Hin & Hvt & Hmax).
  rewrite Hres.
  assert (Hv : (v === lowest)%num = true).
  { apply num_le_antisym.
    - eapply num_le_trans; eassumption.
    - apply Hmax; [left; reflexivity | assumption]. }
  assert (Hfind :
            find reps (fun rep => strict_equals (VNum (bitrate rep)) (VNum v))
            = find reps (fun rep => (bitrate rep === lowest)%num)).
  { apply find_ext. intros rep. cbn [strict_equals].
    apply num_eq_congr; assumption. }
  rewrite Hfind.
  unfold ladder_of in Hlad. cbn [forallb] in Hlad.
  apply andb_prop in Hlad. destruct Hlad as [Hex _].
  destruct (find_existsb _ _ Hex) as [r Hr]. exists r. auto.
Qed.

(** C10.  On a non-empty ladder of strictly positive bitrates, with a
    target of 0 and a threshold in [0, 1), [getClosestBitrate] returns the
    lowest value.  Hence, for an audio or video Adaptation with several
    Representations whose ladder is ascending and made of their bitrates,
    an engine built without options starts the stream with the lowest
    value of the ladder, and the first Representation that a subscriber
    receives is the first one whose bitrate is that lowest value. *)
Theorem initial_pick_is_lowest
  (lowest : number) (rest : list number) (threshold : number)
  (a : Adaptation) (d : DeviceEvents) :
  let bitrates := lowest :: rest in
  forallb is_positive_bitrate bitrates = true ->
  ((int 0 <=? threshold)%num = true -> (threshold <? int 1)%num = true ->
   getClosestBitrate bitrates (int 0) threshold = VNum lowest)
  /\ (getAvailableBitrates a = bitrates ->
      ascending bitrates = true ->
      ladder_of (representations a) bitrates = true ->
      (1 < length (representations a))%nat ->
      type a = "audio"%string \/ type a = "video"%string ->
      let e := create noOptions in
      initialAudioBitrate (config e) = int 0
      /\ initialVideoBitrate (config e) = int 0
      /\ exists bufferSizes s r,
          getBufferAdapters e a = Ok (Combined (VNum lowest), bufferSizes) /\
          subscribe e d a (VNum lowest) = Ok s /\
          s_emitted s = [Some r] /\
          In r (representations a) /\
          (bitrate r === lowest)%num = true /\
          find (representations a) (fun rep => (bitrate rep === lowest)%num)
          = Some r).
Proof.
  intros bitrates Hpos. subst bitrates. split.
  - intros Ht _. apply getClosestBitrate_zero_target; assumption.
  - intros Hbitrates Hasc Hlad Hlen Hty e.
    split; [reflexivity|]. split; [reflexivity|].
    assert (Hstart :
              getClosestBitrate (lowest :: rest) (int 0) (int 0) = VNum lowest)
      by (apply getClosestBitrate_zero_target; [assumption | reflexivity]).
    assert (Hbit : forallb is_bitrate (lowest :: rest) = true)
      by (revert Hpos; apply forallb_impl, is_positive_bitrate_is_bitrate).
    assert (Hlow : is_bitrate lowest = true)
      by (apply (forallb_nth_error _ _ 0%nat lowest Hbit); reflexivity).
    assert (Hcells :
              usrBitrates e (type a) = Some Infinity /\
              maxBitrates e (type a) = Some Infinity /\
              averageBitrates e (type a) = Some (int 0) /\
              exists size, bufSizes e (type a) = Some size).
    { destruct Hty as [-> | ->]; repeat split; eexists; reflexivity. }
    destruct Hcells as (Hu & Hm & Ha & [sz Hsz]).
    destruct (subscribe_emits e d a (VNum lowest) _ _ _ Hu Hm Ha)
      as (s & reps & max & Hs & Hmax & Hreps & Hemit & _).
    assert (Hdefault :
              reps = representations a /\
              (targetBitrate Infinity max (VNum lowest) === lowest)%num = true).
    { destruct Hty as [Hty | Hty]; rewrite Hty in Hmax.
      - cbn [String.eqb Ascii.eqb Bool.eqb] in Hmax.
        injection Hmax as -> ->. split; [reflexivity|].
        cbn. apply num_le_antisym; apply is_bitrate_le_refl; assumption.
      - change (String.eqb "video" "video") with true in Hmax. cbn iota in Hmax.
        unfold videoMaxBitrates in Hmax.
        change (throttleWhenHidden (config e)) with false in Hmax.
        change (limitVideoWidth (config e)) with false in Hmax.
        cbn [andb] in Hmax. cbn iota in Hmax. rewrite Hbitrates in Hmax.
        injection Hmax as -> ->. split; [reflexivity|].
        unfold index_num.
        destruct (nth_error (lowest :: rest) (length rest - 0))
          as [top|] eqn:Htop;
          [|apply nth_error_None in Htop; cbn [length] in Htop; lia].
        assert (Htopb : is_bitrate top = true)
          by (apply (forallb_nth_error _ _ _ _ Hbit Htop)).
        assert (Hlt : (lowest <=? top)%num = true).
        { destruct (length rest - 0)%nat as [|i] eqn:Ei.
          - cbn in Htop. injection Htop as <-.
            apply is_bitrate_le_refl; assumption.
          - apply (ascending_nth_error _ Hasc 0 (S i)); auto. lia. }
        destruct top as [t| | |]; try discriminate.
        destruct lowest as [c| | |]; try discriminate.
        unfold targetBitrate. cbn [ToNumber Math_min num_le num_lt Infinity].
        destruct (Qle_bool t c) eqn:Etc.
        + apply num_le_antisym; [exact Etc | exact Hlt].
        + apply num_le_antisym; apply is_bitrate_le_refl; assumption. }
    destruct Hdefault as [-> Htarget].
    destruct (choose_lowest (representations a) lowest rest _
                Hpos Hasc Hlad Htarget) as (r & Hr1 & Hr2).
    exists (BufSizesCell (type a)), s, r.
    destruct (find_Some _ _ _ Hr2) as [Hin Heq].
    repeat split; auto.
    + unfold getBufferAdapters. rewrite Hsz, Ha, Hbitrates, Hstart.
      apply Nat.ltb_lt in Hlen. rewrite Hlen. reflexivity.
    + rewrite Hemit. unfold chooseRepresentation.
      rewrite Hbitrates, Hr1. reflexivity.
Qed.

Lemma initial_pick_is_lowest_witness :
  (forallb is_positive_bitrate [Mbps 1; Mbps 2] = true /\
   (int 0 <=? Fin (3 # 10))%num = true /\
   (Fin (3 # 10) <? int 1)%num = true /\
   ascending [Mbps 1; Mbps 2] = true /\
   ladder_of (representations videoSample) [Mbps 1; Mbps 2] = true /\
   (1 < length (representations videoSample))%nat)
  /\ getClosestBitrate [Mbps 1; Mbps 2] (int 0) (Fin (3 # 10)) = VNum (Mbps 1)
  /\ exists bufferSizes s r,
      getBufferAdapters engineSample videoSample
      = Ok (Combined (VNum (Mbps 1)), bufferSizes) /\
      subscribe engineSample deviceSample videoSample (VNum (Mbps 1))
      = Ok s /\
      s_emitted s = [Some r] /\
      In r (representations videoSample) /\
      (bitrate r === Mbps 1)%num = true /\
      find (representations videoSample)
           (fun rep => (bitrate rep === Mbps 1)%num) = Some r.
Proof.
  pose proof (initial_pick_is_lowest (Mbps 1) [Mbps 2] (Fin (3 # 10))
                videoSample deviceSample eq_refl) as [Hzero Hpick].
  split; [repeat split; try reflexivity; cbn; lia|]. split.
  - apply Hzero; reflexivity.
  - apply Hpick; try reflexivity; [cbn; lia | right; reflexivity].
Defined.

(** ** A setter called twice *)

Lemma videoMaxBitrates_again cfg bitrates representations maxSet w hidden :
  videoMaxBitrates cfg bitrates
    (snd (videoMaxBitrates cfg bitrates representations maxSet w hidden))
    maxSet w hidden
  = videoMaxBitrates cfg bitrates representations maxSet w hidden.
Proof.
  unfold videoMaxBitrates.
  destruct (throttleWhenHidden cfg && hidden); [reflexivity|].
  destruct (limitVideoWidth cfg); [|reflexivity].
  pose proof (getMaxUsefulBitrateforWidth_array representations w) as Harr.
  pose proof (getMaxUsefulBitrateforWidth_sorted representations w) as Hs.
  destruct (getMaxUsefulBitrateforWidth representations w) as [m reps'].
  cbn [snd] in *. subst reps'. rewrite Hs. reflexivity.
Qed.

Lemma combine_inputs s s1 : combine s = Ok s1 -> same_inputs s s1.
Proof.
  unfold combine, emitDistinct. cbn [s_key].
  destruct (s_key s) as [[a|]|];
    [destruct (chosen_of s) as [b|] eqn:E; unfold chosen_of in E; rewrite E;
     [destruct (String.eqb (id a) (id b))|] | |];
    try discriminate; intros [= <-]; repeat split.
Qed.

Lemma combine_key s s1 : combine s = Ok s1 -> key_matches s1 (chosen_of s).
Proof.
  unfold combine, emitDistinct, key_matches. cbn [s_key].
  fold (chosen_of s).
  destruct (s_key s) as [[a|]|] eqn:K;
    [destruct (chosen_of s) as [b|] eqn:E;
     [destruct (String.eqb (id a) (id b)) eqn:I|] | |];
    try discriminate; intros [= <-]; cbn [s_key]; auto.
  right. exists a, b. auto.
Qed.

(** Every run of the combining function is counted. *)
Lemma combine_evaluations s s1 :
  combine s = Ok s1 -> s_evaluations s1 = S (s_evaluations s).
Proof.
  unfold combine, emitDistinct. cbn [s_key].
  destruct (s_key s) as [[a|]|];
    [destruct (chooseRepresentation _ _ _ _ _) as [b|];
     [destruct (String.eqb (id a) (id b))|] | |];
    try discriminate; intros [= <-]; reflexivity.
Qed.

(** When the key already has the identifier of the pick, a run of the
    combining function emits nothing. *)
Lemma combine_repeat s s2 :
  key_matches s (chosen_of s) -> combine s = Ok s2 ->
  s_emitted s2 = s_emitted s.
Proof.
  unfold combine, emitDistinct, key_matches. cbn [s_key].
  fold (chosen_of s).
  intros [K | (a & b & K & C & I)]; rewrite K.
  - destruct (chosen_of s) as [b|]; [|discriminate].
    rewrite String.eqb_refl. intros [= <-]. reflexivity.
  - rewrite C, I. intros [= <-]. reflexivity.
Qed.

Lemma chosen_of_same_inputs s s' :
  same_inputs s s' -> chosen_of s' = chosen_of s.
Proof.
  intros (_ & _ & Hb & Hr & Hu & _ & _ & _ & Hm & Ha).
  unfold chosen_of. rewrite Hb, Hr, Hu, Hm, Ha. reflexivity.
Qed.

Lemma with_usr_again s s1 v :
  same_inputs (with_usr s v) s1 -> same_inputs (with_usr s v) (with_usr s1 v).
Proof.
  intros (H1 & H2 & H3 & H4 & H5 & H6 & H7 & H8 & H9 & H10).
  repeat split; assumption.
Qed.

Lemma refreshMax_output s m w h :
  s_key (refreshMax s m w h) = s_key s /\
  s_emitted (refreshMax s m w h) = s_emitted s /\
  s_evaluations (refreshMax s m w h) = s_evaluations s /\
  s_type (refreshMax s m w h) = s_type s.
Proof.
  unfold refreshMax. destruct (if String.eqb _ _ then _ else _).
  repeat split.
Qed.

Lemma refreshMax_again s s1 m :
  let r := refreshMax s m (s_width s) (s_hidden s) in
  same_inputs r s1 ->
  same_inputs r (refreshMax s1 m (s_width s1) (s_hidden s1)).
Proof.
  intros r (H1 & H2 & H3 & H4 & H5 & H6 & H7 & H8 & H9 & H10).
  assert (Hw : s_width r = s_width s /\ s_hidden r = s_hidden s).
  { unfold r, refreshMax. destruct (if String.eqb _ _ then _ else _).
    split; reflexivity. }
  destruct Hw as [Hw Hh]. rewrite Hw in H7. rewrite Hh in H8.
  assert (Hr : (s_max r, s_representations r)
               = if String.eqb (s_type s) "video" then
                   videoMaxBitrates (s_config s) (s_bitrates s)
                     (s_representations s) m (s_width s) (s_hidden s)
                 else (VNum m, s_representations s)).
  { unfold r, refreshMax. destruct (if String.eqb _ _ then _ else _).
    reflexivity. }
  assert (Hstatic : s_config r = s_config s /\ s_type r = s_type s /\
                    s_bitrates r = s_bitrates s /\ s_usr r = s_usr s /\
                    s_avr r = s_avr s /\ s_maxSet r = m).
  { unfold r, refreshMax. destruct (if String.eqb _ _ then _ else _).
    repeat split. }
  destruct Hstatic as (S1 & S2 & S3 & S5 & S10 & S6).
  assert (Hagain :
            (if String.eqb (s_type s1) "video" then
               videoMaxBitrates (s_config s1) (s_bitrates s1)
                 (s_representations s1) m (s_width s1) (s_hidden s1)
             else (VNum m, s_representations s1))
            = (s_max r, s_representations r)).
  { rewrite H1, H2, H3, H4, H7, H8, S1, S2, S3.
    destruct (String.eqb (s_type s) "video").
    - rewrite Hr.
      replace (s_representations r)
        with (snd (videoMaxBitrates (s_config s) (s_bitrates s)
                     (s_representations s) m (s_width s) (s_hidden s)))
        by (rewrite <- Hr; reflexivity).
      apply videoMaxBitrates_again.
    - injection Hr as Hr1 Hr2. rewrite Hr1, Hr2. reflexivity. }
  unfold refreshMax at 1. rewrite Hagain.
  unfold same_inputs.
  cbn [s_config s_type s_bitrates s_representations s_usr s_maxSet s_width
       s_hidden s_max s_avr].
  repeat split; try assumption; congruence.
Qed.

(** A second delivery of the same pinned or maximal bitrate runs the
    combining function again and emits nothing. *)
Lemma deliver_bitrate_twice n s s1 s2 :
  (exists v, n = UsrBitrates (s_type s) v) \/
  (exists v, n = MaxBitrates (s_type s) v) ->
  deliver n s = Ok s1 -> deliver n s1 = Ok s2 ->
  s_emitted s2 = s_emitted s1 /\ s_evaluations s2 = S (s_evaluations s1).
Proof.
  intros [(v & ->) | (v & ->)]; cbn [deliver];
    rewrite String.eqb_refl; intros H1.
  - pose proof (combine_inputs _ _ H1) as Hin.
    pose proof (combine_key _ _ H1) as Hkey.
    assert (Hty : s_type s1 = s_type s) by apply Hin.
    rewrite <- Hty, String.eqb_refl. intros H2.
    pose proof (with_usr_again _ _ _ Hin) as Hin'.
    split.
    + apply (combine_repeat _ _) in H2; [exact H2|].
      rewrite (chosen_of_same_inputs _ _ Hin'). exact Hkey.
    + apply combine_evaluations in H2. exact H2.
  - pose proof (combine_inputs _ _ H1) as Hin.
    pose proof (combine_key _ _ H1) as Hkey.
    assert (Hty : s_type s1 = s_type s).
    { destruct Hin as (_ & Hty & _). rewrite Hty.
      apply refreshMax_output. }
    rewrite <- Hty, String.eqb_refl. intros H2.
    pose proof (refreshMax_again _ _ _ Hin) as Hin'.
    destruct (refreshMax_output s1 v (s_width s1) (s_hidden s1))
      as (K & E & V & _).
    split.
    + apply (combine_repeat _ _) in H2; [rewrite H2; exact E|].
      rewrite (chosen_of_same_inputs _ _ Hin').
      unfold key_matches in *. rewrite K. exact Hkey.
    + apply combine_evaluations in H2. rewrite H2, V. reflexivity.
Qed.

(** The state [subscriberSample] is the one that a subscription yields. *)
Example subscriberSample_subscribed :
  getBufferAdapters engineSample audioSample
  = Ok (Combined (VNum (int 64000)), BufSizesCell "audio")
  /\ subscribe engineSample deviceSample audioSample
       (VNum (int 64000)) = Ok subscriberSample.
Proof. split; reflexivity. Qed.

(** C9, as stated, fails.  After [setAudioBitrate(128000)] on an engine
    built without options with one subscriber of [audioSample], a second
    [setAudioBitrate(128000)] runs the combining function once more; and
    two calls [setAudioBufferSize(10)] deliver 10 twice to a subscriber of
    the audio buffer sizes. *)
Lemma duplicate_call_not_suppressed :
  ~ duplicate_call_not_reevaluated
  /\ ~ duplicate_call_not_redelivered
  /\ ~ duplicate_call_is_suppressed
  /\ (exists s1 s2,
        deliver (snd (setAudioBitrate (ANumber (int 128000)) engineSample))
                subscriberSample = Ok s1 /\
        deliver (snd (setAudioBitrate (ANumber (int 128000)) engineSample))
                s1 = Ok s2 /\
        s_evaluations subscriberSample = 1%nat /\
        s_evaluations s1 = 2%nat /\ s_evaluations s2 = 3%nat)
  /\ bufferSizes_subscribe engineSample (BufSizesCell "audio") = [int 30]
  /\ bufferSizes_deliver (BufSizesCell "audio")
       (snd (setAudioBufferSize (ANumber (int 10)) engineSample))
       (bufferSizes_subscribe engineSample (BufSizesCell "audio"))
     = [int 10; int 30]
  /\ bufferSizes_deliver (BufSizesCell "audio")
       (snd (setAudioBufferSize (ANumber (int 10)) engineSample))
       (bufferSizes_deliver (BufSizesCell "audio")
          (snd (setAudioBufferSize (ANumber (int 10)) engineSample))
          (bufferSizes_subscribe engineSample (BufSizesCell "audio")))
     = [int 10; int 10; int 30].
Proof.
  assert (Hrun :
            let e := engineSample in
            let n := snd (setAudioBitrate (ANumber (int 128000)) e) in
            exists s1 s2,
              deliver n subscriberSample = Ok s1 /\ deliver n s1 = Ok s2 /\
              s_evaluations subscriberSample = 1%nat /\
              s_evaluations s1 = 2%nat /\ s_evaluations s2 = 3%nat).
  { cbv zeta. eexists. eexists.
    split; [vm_compute; reflexivity|].
    split; [vm_compute; reflexivity|].
    repeat split. }
  assert (Heval : ~ duplicate_call_not_reevaluated).
  { intros H. destruct Hrun as (s1 & s2 & E1 & E2 & _ & V1 & V2).
    pose proof (H setAudioBitrate "audio"%string (or_introl eq_refl)
                  (ANumber (int 128000)) engineSample
                  subscriberSample s1 s2 eq_refl E1 E2) as Hev.
    rewrite V1, V2 in Hev. discriminate. }
  assert (Hbuf : ~ duplicate_call_not_redelivered).
  { intros H.
    pose proof (H setAudioBufferSize "audio"%string (or_introl eq_refl)
                  (ANumber (int 10)) engineSample []) as Hre.
    vm_compute in Hre. discriminate. }
  split; [exact Heval|]. split; [exact Hbuf|].
  split; [intros [H _]; exact (Heval H)|].
  split; [exact Hrun | repeat split].
Qed.

(** C9, amended.  A second call of a bitrate setter (pinned or maximal,
    audio or video) with an argument of the same normalized value sends
    the same value again: for a subscriber of that type the combining
    function runs once more and nothing is emitted, because the
    Representation it picks has the identifier of the last one emitted.
    A second call of a buffer size setter with an argument of the same
    normalized value delivers that value a second time to the subscribers
    of the buffer sizes.  A second call of a track setter with the same
    preference object changes nothing for a subscriber of the selection:
    no selector runs and nothing is emitted. *)
Theorem duplicate_call_effect (x x' : any) (e : Engine) :
  (forall setter ty, In (setter, ty) bitrateSetters ->
     def x' Infinity = def x Infinity ->
     let n1 := snd (setter x e) in
     let n2 := snd (setter x' (fst (setter x e))) in
     n2 = n1 /\
     forall s s1 s2,
       s_type s = ty -> deliver n1 s = Ok s1 -> deliver n2 s1 = Ok s2 ->
       s_emitted s2 = s_emitted s1 /\
       s_evaluations s2 = S (s_evaluations s1))
  /\ (forall setter ty, In (setter, ty) bufferSizeSetters ->
        def x' (defaultBufferSize (config e))
        = def x (defaultBufferSize (config e)) ->
        let n1 := snd (setter x e) in
        let n2 := snd (setter x' (fst (setter x e))) in
        n2 = n1 /\
        forall received,
          bufferSizes_deliver (BufSizesCell ty) n2
            (bufferSizes_deliver (BufSizesCell ty) n1 received)
          = def x (defaultBufferSize (config e))
              :: def x (defaultBufferSize (config e)) :: received)
  /\ (forall findBetterMatchIndex (track : AudioTrack.t) (c : Chooser),
        let n1 := snd (setAudioTrack track e) in
        let n2 := snd (setAudioTrack track (fst (setAudioTrack track e))) in
        chooser_deliver findBetterMatchIndex n2
          (chooser_deliver findBetterMatchIndex n1 c)
        = chooser_deliver findBetterMatchIndex n1 c)
  /\ (forall findBetterMatchIndex (track : option TextTrack.t) (c : Chooser),
        let n1 := snd (setTextTrack track e) in
        let n2 := snd (setTextTrack track (fst (setTextTrack track e))) in
        chooser_deliver findBetterMatchIndex n2
          (chooser_deliver findBetterMatchIndex n1 c)
        = chooser_deliver findBetterMatchIndex n1 c).
Proof.
  split; [|split; [|split]].
  - intros setter ty Hin Hsame n1 n2.
    assert (Hcases :
              n2 = n1 /\
              ((exists v, n1 = UsrBitrates ty v) \/
               (exists v, n1 = MaxBitrates ty v))).
    { cbn [bitrateSetters In] in Hin. subst n1 n2.
      destruct Hin as [[= <- <-] | [[= <- <-] | [[= <- <-] | [[= <- <-] | []]]]];
        cbn [setAudioBitrate setVideoBitrate setAudioMaxBitrate
             setVideoMaxBitrate snd fst];
        rewrite Hsame; (split; [reflexivity|]); eauto. }
    destruct Hcases as [-> Hn]. split; [reflexivity|].
    intros s s1 s2 <-. apply deliver_bitrate_twice. exact Hn.
  - intros setter ty Hin Hsame n1 n2.
    cbn [bufferSizeSetters In] in Hin. subst n1 n2.
    destruct Hin as [[= <- <-] | [[= <- <-] | []]];
      cbn [setAudioBufferSize setVideoBufferSize snd fst with_bufSizes_audio
           with_bufSizes_video config];
      rewrite Hsame; (split; [reflexivity|]); intros received; reflexivity.
  - intros matcher track c n1 n2. subst n1 n2. cbn [setAudioTrack snd fst].
    unfold chooser_deliver.
    destruct (String.eqb (c_type c) "audio") eqn:Ety; [|rewrite Ety; reflexivity].
    destruct (c_languagesKey c) as [previous|] eqn:K.
    + destruct (same_audioTrack previous track) eqn:Es.
      * rewrite Ety, K, Es. reflexivity.
      * cbn [c_type c_languagesKey]. rewrite Ety.
        unfold same_audioTrack. rewrite Nat.eqb_refl. reflexivity.
    + rewrite Ety, K. reflexivity.
  - intros matcher track c n1 n2. subst n1 n2. cbn [setTextTrack snd fst].
    unfold chooser_deliver.
    destruct (String.eqb (c_type c) "text") eqn:Ety; [|rewrite Ety; reflexivity].
    destruct (c_subtitlesKey c) as [previous|] eqn:K.
    + destruct (same_textTrack previous track) eqn:Es.
      * rewrite Ety, K, Es. reflexivity.
      * cbn [c_type c_subtitlesKey]. rewrite Ety.
        assert (Hrefl : same_textTrack track track = true)
          by (destruct track; cbn; [apply Nat.eqb_refl | reflexivity]).
        rewrite Hrefl. reflexivity.
    + rewrite Ety, K. reflexivity.
Qed.

Lemma duplicate_call_effect_witness :
  In (setAudioBitrate, "audio"%string) bitrateSetters
  /\ s_type subscriberSample = "audio"%string
  /\ exists s1 s2,
      deliver (snd (setAudioBitrate (ANumber (int 128000)) engineSample))
              subscriberSample = Ok s1 /\
      deliver (snd (setAudioBitrate (ANumber (int 128000)) engineSample))
              s1 = Ok s2 /\
      s_emitted s1
      = [ Some (mkRepresentation "a128" (int 128000) NaN);
          Some (mkRepresentation "a64" (int 64000) NaN) ] /\
      s_emitted s2 = s_emitted s1 /\
      s_evaluations s2 = S (s_evaluations s1).
Proof.
  pose (e := engineSample).
  pose (n := snd (setAudioBitrate (ANumber (int 128000)) e)).
  fold e. fold n.
  split; [left; reflexivity|]. split; [reflexivity|].
  assert (H1 : exists s1, deliver n subscriberSample = Ok s1 /\
                          s_emitted s1
                          = [ Some (mkRepresentation "a128" (int 128000) NaN);
                              Some (mkRepresentation "a64" (int 64000) NaN) ])
    by (eexists; split; [vm_compute; reflexivity | reflexivity]).
  destruct H1 as (s1 & H1 & Hemit).
  destruct (deliver n s1) as [s2|] eqn:H2.
  - exists s1, s2. split; [exact H1|]. split; [exact H2|].
    split; [exact Hemit|].
    apply (proj2 (proj1 (duplicate_call_effect
                           (ANumber (int 128000)) (ANumber (int 128000)) e)
                    setAudioBitrate "audio"%string (or_introl eq_refl)
                    eq_refl)
             subscriberSample s1 s2 eq_refl H1 H2).
  - exfalso. vm_compute in H1. injection H1 as <-.
    vm_compute in H2. discriminate.
Defined.

(** * Further properties *)

(** ** More on [find] *)

(** X1.  [find] returns the first element of the array that satisfies the
    predicate, so every element before it fails the predicate, and it
    returns [null] exactly when no element of the array satisfies the
    predicate. *)
Theorem find_first_match {A : Type} (array : list A) (predicate : A -> bool) :
  (forall r, find array predicate = Some r <->
             exists before after,
               array = before ++ r :: after /\ predicate r = true /\
               forall x, In x before -> predicate x = false)
  /\ (find array predicate = None <->
      forall x, In x array -> predicate x = false).
Proof.
  induction array as [|y l [IHs IHn]].
  - split.
    + intros r; split; [discriminate|].
      intros (before & after & E & _). destruct before; discriminate.
    + split; [intros _ x []|reflexivity].
  - cbn [find]. destruct (predicate y) eqn:Ey; split.
    + intros r; split.
      * intros [= <-]. exists [], l. repeat split; auto. intros x [].
      * intros (before & after & E & Hr & Hb).
        destruct before as [|b before].
        -- cbn in E. injection E as -> _. reflexivity.
        -- cbn in E. injection E as -> _.
           rewrite (Hb b (or_introl eq_refl)) in Ey. discriminate.
    + split; [discriminate|].
      intros H. rewrite (H y (or_introl eq_refl)) in Ey. discriminate.
    + intros r; split.
      * intros H. apply IHs in H. destruct H as (before & after & -> & Hr & Hb).
        exists (y :: before), after. repeat split; auto.
        intros x [<- | Hx]; auto.
      * intros (before & after & E & Hr & Hb).
        destruct before as [|b before].
        -- cbn in E. injection E as <- _. congruence.
        -- cbn in E. injection E as <- ->. apply IHs.
           exists before, after. repeat split; auto.
           intros x Hx. apply Hb. right; exact Hx.
    + split.
      * intros H x [<- | Hx]; [exact Ey|]. apply IHn; assumption.
      * intros H. apply IHn. intros x Hx. apply H. right; exact Hx.
Qed.

(** ** More on [def] *)

Lemma def_cases x val :
  (def x val >? int 0)%num = true \/ def x val = val.
Proof.
  rewrite def_spec. destruct x as [| |b|n|s|]; cbn [strictly_positive_number]; auto.
  destruct (n >? int 0)%num eqn:E; auto.
Qed.

Lemma def_positive x val :
  (val >? int 0)%num = true -> (def x val >? int 0)%num = true.
Proof. intros H. destruct (def_cases x val) as [Hd | ->]; assumption. Qed.

(** Normalising a normalised value changes nothing, and a normalised value
    is strictly positive or the default. *)
Lemma def_idempotent (x : any) (val : number) :
  def (ANumber (def x val)) val = def x val
  /\ ((def x val >? int 0)%num = true \/ def x val = val).
Proof.
  split; [|apply def_cases].
  rewrite (def_spec (ANumber _)). cbn [strictly_positive_number].
  destruct (def_cases x val) as [H | H].
  - rewrite H. reflexivity.
  - destruct (def x val >? int 0)%num; [reflexivity | symmetry; exact H].
Qed.

(** ** The cells over any sequence of calls *)

Lemma call_config c e : config (fst (call c e)) = config e.
Proof. destruct c; reflexivity. Qed.

Lemma calls_config cs e : config (calls cs e) = config e.
Proof.
  revert e. induction cs as [|c cs IH]; intros e; [reflexivity|].
  cbn [calls]. rewrite IH. apply call_config.
Qed.

Lemma call_cells_positive c e :
  cells_positive e -> cells_positive (fst (call c e)).
Proof.
  intros (Hua & Huv & Hma & Hmv & Hb).
  destruct c; cbn [call fst setAudioTrack setTextTrack setAudioBitrate
                   setVideoBitrate setAudioMaxBitrate setVideoMaxBitrate
                   setAudioBufferSize setVideoBufferSize];
    unfold cells_positive;
    cbn [with_languages with_subtitles with_usrBitrates_audio
         with_usrBitrates_video with_maxBitrates_audio with_maxBitrates_video
         with_bufSizes_audio with_bufSizes_video
         config usrBitrates_audio usrBitrates_video maxBitrates_audio
         maxBitrates_video bufSizes_audio bufSizes_video bufSizes_text];
    repeat split; auto; try (intros; apply def_positive; reflexivity);
    try (intros H; apply Hb; exact H);
    try (intros H; apply def_positive; exact H);
    try (apply def_positive; assumption);
    try (apply Hb; assumption).
Qed.

Lemma calls_cells_positive cs e :
  cells_positive e -> cells_positive (calls cs e).
Proof.
  revert e. induction cs as [|c cs IH]; intros e He; [exact He|].
  cbn [calls]. apply IH, call_cells_positive, He.
Qed.

Lemma create_cells_positive options : cells_positive (create options).
Proof.
  unfold cells_positive, create.
  cbn [config usrBitrates_audio usrBitrates_video maxBitrates_audio
       maxBitrates_video bufSizes_audio bufSizes_video bufSizes_text].
  repeat split; auto.
Qed.

(** X2.  Whatever the setters are called with, and in
    whatever order, the configuration does not change and the pinned
    bitrates stay strictly positive; the bitrate caps, and the buffer sizes,
    stay strictly positive when the configured cap, and the configured
    default buffer size, are strictly positive. *)
Theorem cells_stay_positive (options : Options) (cs : list Call) :
  let e := calls cs (create options) in
  config e = assign DEFAULTS options
  /\ (usrBitrates_audio e >? int 0)%num = true
  /\ (usrBitrates_video e >? int 0)%num = true
  /\ ((maxAudioBitrate (config e) >? int 0)%num = true ->
      (getAudioMaxBitrate e >? int 0)%num = true)
  /\ ((maxVideoBitrate (config e) >? int 0)%num = true ->
      (getVideoMaxBitrate e >? int 0)%num = true)
  /\ ((defaultBufferSize (config e) >? int 0)%num = true ->
      (getAudioBufferSize e >? int 0)%num = true /\
      (getVideoBufferSize e >? int 0)%num = true /\
      (bufSizes_text e >? int 0)%num = true).
Proof.
  intros e. split; [unfold e; rewrite calls_config; reflexivity|].
  apply (calls_cells_positive cs (create options)), create_cells_positive.
Qed.

(** ** More on [getClosestBitrate] *)

Lemma Qdiv_nonneg (a b : Q) : 0 <= a -> 0 < b -> 0 <= a / b.
Proof. intros Ha Hb. apply Qle_shift_div_l; [assumption | lra]. Qed.

Lemma Qdiv_le_divisor (a b c : Q) :
  0 <= a -> 0 < b -> b <= c -> a / c <= a / b.
Proof.
  intros Ha Hb Hc. apply Qle_shift_div_r; [lra|].
  assert (E : a == (a / b) * b) by (field; lra).
  assert (H : a / b * b <= a / b * c).
  { rewrite (Qmult_comm (a / b) b), (Qmult_comm (a / b) c).
    apply Qmult_le_compat_r; [assumption | apply Qdiv_nonneg; assumption]. }
  rewrite <- E in H. exact H.
Qed.

(** A bitrate that passes the test for a target passes it for every
    larger target. *)
Lemma qualifies_larger_target t1 t2 threshold v :
  is_bitrate v = true -> (int 0 <=? t1)%num = true ->
  (t1 <=? t2)%num = true ->
  qualifies t1 threshold v = true -> qualifies t2 threshold v = true.
Proof.
  unfold qualifies. destruct v as [a| | |]; cbn [is_bitrate]; try discriminate.
  intros Ha. apply Qle_bool_iff in Ha.
  destruct t1 as [b| | |]; cbn [num_le int]; try discriminate.
  - intros Hb. apply Qle_bool_iff in Hb. change (inject_Z 0) with 0 in Hb.
    destruct t2 as [c| | |]; try discriminate.
    + intros Hbc. apply Qle_bool_iff in Hbc. cbn [num_div].
      destruct (Qeq_bool b 0) eqn:Eb.
      * apply Qeq_bool_iff in Eb.
        destruct (Qeq_bool a 0) eqn:Ea; [discriminate|].
        rewrite (proj2 (Qle_bool_iff 0 a) Ha).
        destruct (int 1 - threshold)%num; cbn [num_le];
          try discriminate.
        intros _. destruct (Qeq_bool c 0); reflexivity.
      * apply Qeq_bool_false_iff in Eb.
        assert (Hc : Qeq_bool c 0 = false)
          by (apply Qeq_bool_false_iff; lra).
        rewrite Hc.
        destruct (int 1 - threshold)%num as [x| | |];
          cbn [num_le]; try discriminate; [|reflexivity].
        intros H. apply Qle_bool_iff in H. apply Qle_bool_iff.
        apply Qle_trans with (a / b); [|exact H].
        apply Qdiv_le_divisor; lra.
    + intros _. cbn [num_div].
      destruct (Qeq_bool b 0) eqn:Eb.
      * destruct (Qeq_bool a 0) eqn:Ea; [discriminate|].
        rewrite (proj2 (Qle_bool_iff 0 a) Ha).
        destruct (int 1 - threshold)%num; cbn [num_le];
          try discriminate. reflexivity.
      * apply Qeq_bool_false_iff in Eb.
        destruct (int 1 - threshold)%num as [x| | |];
          cbn [num_le]; try discriminate; [|reflexivity].
        intros H. apply Qle_bool_iff in H. apply Qle_bool_iff.
        apply Qle_trans with (a / b); [|exact H].
        apply Qdiv_nonneg; lra.
  - intros _. destruct t2; cbn [num_le]; try discriminate. auto.
Qed.

(** A value that passes the test with a margin passes it without. *)
Lemma qualifies_without_margin target threshold v :
  (int 0 <=? threshold)%num = true ->
  qualifies target threshold v = true -> qualifies target (int 0) v = true.
Proof.
  unfold qualifies. intros Ht H.
  apply num_le_trans with (int 1 - threshold)%num; [exact H|].
  destruct threshold as [x| | |]; cbn in Ht |- *; try discriminate;
    [|reflexivity].
  apply Qle_bool_iff in Ht. apply Qle_bool_iff.
  change (inject_Z 0) with 0 in *. change (inject_Z 1) with 1. lra.
Qed.

(** Two scans of the same ascending ladder, the second with a test that
    every value passing the first one passes: the second result is at
    least the first. *)
Lemma getClosestBitrate_weaker_test lowest rest t1 thr1 t2 thr2 :
  let bitrates := lowest :: rest in
  ascending bitrates = true -> forallb is_bitrate bitrates = true ->
  (forall v, In v bitrates ->
             qualifies t1 thr1 v = true -> qualifies t2 thr2 v = true) ->
  exists v1 v2,
    getClosestBitrate bitrates t1 thr1 = VNum v1 /\
    getClosestBitrate bitrates t2 thr2 = VNum v2 /\
    In v1 bitrates /\ In v2 bitrates /\ (v1 <=? v2)%num = true.
Proof.
  intros bitrates Hasc Hbit Himp. subst bitrates.
  assert (Hlow : is_bitrate lowest = true)
    by (apply (forallb_nth_error _ _ 0%nat lowest Hbit); reflexivity).
  assert (Hfirst : forall i v, nth_error (lowest :: rest) i = Some v ->
                               (lowest <=? v)%num = true).
  { intros [|i] v Hv.
    - cbn in Hv. injection Hv as <-. apply is_bitrate_le_refl; assumption.
    - apply (ascending_nth_error _ Hasc 0 (S i)); auto. lia. }
  destruct (getClosestBitrate_scan lowest rest t1 thr1)
    as [(i1 & v1 & Hv1 & Hq1 & _ & Hres1) | [_ Hres1]];
    destruct (getClosestBitrate_scan lowest rest t2 thr2)
      as [(i2 & v2 & Hv2 & Hq2 & Habove2 & Hres2) | [Hnone2 Hres2]].
  - exists v1, v2. repeat split; auto;
      try (eapply nth_error_In; eassumption).
    destruct (Nat.lt_trichotomy i1 i2) as [Hlt | [-> | Hgt]].
    + apply (ascending_nth_error _ Hasc i1 i2); auto.
    + assert (v1 = v2) by congruence. subst v2.
      apply is_bitrate_le_refl, (forallb_nth_error _ _ _ _ Hbit Hv1).
    + pose proof (Habove2 i1 v1 Hgt Hv1) as Hn.
      rewrite (Himp v1 (nth_error_In _ _ Hv1) Hq1) in Hn. discriminate.
  - exfalso. pose proof (Hnone2 v1 (nth_error_In _ _ Hv1)) as Hn.
    rewrite (Himp v1 (nth_error_In _ _ Hv1) Hq1) in Hn. discriminate.
  - exists lowest, v2. repeat split; auto;
      [left; reflexivity | eapply nth_error_In; eassumption | eauto].
  - exists lowest, lowest. repeat split; auto; try (left; reflexivity).
    apply is_bitrate_le_refl; assumption.
Qed.

(** X3.  On an ascending array of bitrates and with the same threshold,
    [getClosestBitrate] is monotone in the target: a larger target, from 0
    up, never gives a smaller bitrate. *)
Theorem getClosestBitrate_monotone
  (lowest : number) (rest : list number) (t1 t2 threshold : number) :
  let bitrates := lowest :: rest in
  ascending bitrates = true -> forallb is_bitrate bitrates = true ->
  (int 0 <=? t1)%num = true -> (t1 <=? t2)%num = true ->
  exists v1 v2,
    getClosestBitrate bitrates t1 threshold = VNum v1 /\
    getClosestBitrate bitrates t2 threshold = VNum v2 /\
    (v1 <=? v2)%num = true.
Proof.
  intros bitrates Hasc Hbit H0 H12.
  destruct (getClosestBitrate_weaker_test lowest rest t1 threshold t2 threshold
              Hasc Hbit) as (v1 & v2 & H1 & H2 & _ & _ & Hle).
  - intros v Hv. apply qualifies_larger_target; auto.
    fold bitrates in Hbit. rewrite forallb_forall in Hbit. auto.
  - exists v1, v2. auto.
Qed.

Lemma getClosestBitrate_monotone_witness :
  exists v1 v2,
    getClosestBitrate ladderSample (int 800) (Fin (3 # 10)) = VNum v1 /\
    getClosestBitrate ladderSample (int 2000) (Fin (3 # 10)) = VNum v2 /\
    (v1 <=? v2)%num = true.
Proof.
  apply (getClosestBitrate_monotone
           (int 300) [int 750; int 1500; int 3000]
           (int 800) (int 2000) (Fin (3 # 10)));
    reflexivity.
Defined.

(** X4.  On an ascending array of bitrates, a threshold of 0 or more
    never raises the result of [getClosestBitrate] above the result for the
    threshold 0. *)
Theorem getClosestBitrate_margin_lowers
  (lowest : number) (rest : list number) (target threshold : number) :
  let bitrates := lowest :: rest in
  ascending bitrates = true -> forallb is_bitrate bitrates = true ->
  (int 0 <=? threshold)%num = true ->
  exists v1 v2,
    getClosestBitrate bitrates target threshold = VNum v1 /\
    getClosestBitrate bitrates target (int 0) = VNum v2 /\
    (v1 <=? v2)%num = true.
Proof.
  intros bitrates Hasc Hbit Ht.
  destruct (getClosestBitrate_weaker_test lowest rest target threshold
              target (int 0) Hasc Hbit) as (v1 & v2 & H1 & H2 & _ & _ & Hle).
  - intros v _. apply qualifies_without_margin; assumption.
  - exists v1, v2. auto.
Qed.

Lemma getClosestBitrate_margin_lowers_witness :
  exists v1 v2,
    getClosestBitrate ladderSample (int 800) (Fin (3 # 10)) = VNum v1 /\
    getClosestBitrate ladderSample (int 800) (int 0) = VNum v2 /\
    (v1 <=? v2)%num = true.
Proof.
  apply (getClosestBitrate_margin_lowers
           (int 300) [int 750; int 1500; int 3000]
           (int 800) (Fin (3 # 10)));
    reflexivity.
Defined.

Lemma qualifies_NaN_target threshold v : qualifies NaN threshold v = false.
Proof. unfold qualifies. destruct v; reflexivity. Qed.

Lemma qualifies_NaN_threshold target v : qualifies target NaN v = false.
Proof.
  unfold qualifies. cbn [num_sub int].
  destruct (v / target)%num; reflexivity.
Qed.

(** X5.  [getClosestBitrate] returns [undefined] on an empty array; on
    any other array it returns a value of the array, and that value is the
    first one when the target or the threshold is [NaN]. *)
Theorem getClosestBitrate_edges :
  (forall btr threshold, getClosestBitrate [] btr threshold = VUndefined)
  /\ (forall lowest rest threshold,
         getClosestBitrate (lowest :: rest) NaN threshold = VNum lowest)
  /\ (forall lowest rest btr,
         getClosestBitrate (lowest :: rest) btr NaN = VNum lowest)
  /\ (forall lowest rest btr threshold,
         exists v, getClosestBitrate (lowest :: rest) btr threshold = VNum v /\
                   In v (lowest :: rest)).
Proof.
  split; [reflexivity|]. split; [|split].
  - intros lowest rest threshold.
    destruct (getClosestBitrate_scan lowest rest NaN threshold)
      as [(i & v & _ & Hq & _) | [_ Hres]]; [|exact Hres].
    rewrite qualifies_NaN_target in Hq. discriminate.
  - intros lowest rest btr.
    destruct (getClosestBitrate_scan lowest rest btr NaN)
      as [(i & v & _ & Hq & _) | [_ Hres]]; [|exact Hres].
    rewrite qualifies_NaN_threshold in Hq. discriminate.
  - apply getClosestBitrate_member.
Qed.

Lemma num_eq_le a b c :
  (a === b)%num = true -> (b <=? c)%num = true -> (a <=? c)%num = true.
Proof.
  destruct a as [x| | |], b as [y| | |], c as [z| | |]; cbn;
    try discriminate; auto.
  intros H1 H2. apply Qeq_bool_iff in H1. apply Qle_bool_iff in H2.
  apply Qle_bool_iff. lra.
Qed.

Lemma num_le_total a b :
  (a === a)%num = true -> (b === b)%num = true ->
  (a <=? b)%num = true \/ (b <? a)%num = true.
Proof.
  destruct a as [x| | |], b as [y| | |]; cbn; try discriminate; auto.
  intros _ _. destruct (Qle_bool x y); auto.
Qed.

(** Threshold 0: for a target that is [NaN], or that is not negative and
    at most a cap that the lowest value does not exceed, the result is at
    most the cap. *)
Lemma getClosestBitrate_capped lowest rest target cap :
  let bitrates := lowest :: rest in
  forallb is_bitrate bitrates = true ->
  (lowest <=? cap)%num = true ->
  target = NaN \/
  ((int 0 <=? target)%num = true /\ (target <=? cap)%num = true) ->
  exists v, getClosestBitrate bitrates target (int 0) = VNum v /\
            In v bitrates /\ (v <=? cap)%num = true.
Proof.
  intros bitrates Hbit Hcap Ht. subst bitrates.
  destruct (getClosestBitrate_scan lowest rest target (int 0))
    as [(i & v & Hv & Hq & _ & Hres) | [_ Hres]].
  - destruct Ht as [-> | [H0 Hle]];
      [rewrite qualifies_NaN_target in Hq; discriminate|].
    assert (Hvb : is_bitrate v = true)
      by (apply (forallb_nth_error _ _ _ _ Hbit Hv)).
    rewrite (qualifies_no_threshold _ _ Hvb H0) in Hq.
    apply andb_prop in Hq. destruct Hq as [Hvt _].
    exists v. repeat split; auto; [eapply nth_error_In; eassumption|].
    eapply num_le_trans; eassumption.
  - exists lowest. repeat split; auto. left; reflexivity.
Qed.

(** Threshold 0: for a target that is [NaN], or that is not negative and
    at most the lowest value, the result equals the lowest value. *)
Lemma getClosestBitrate_at_most_lowest lowest rest target :
  let bitrates := lowest :: rest in
  ascending bitrates = true -> forallb is_bitrate bitrates = true ->
  target = NaN \/
  ((int 0 <=? target)%num = true /\ (target <=? lowest)%num = true) ->
  exists v, getClosestBitrate bitrates target (int 0) = VNum v /\
            (v === lowest)%num = true.
Proof.
  intros bitrates Hasc Hbit Ht. subst bitrates.
  assert (Hlow : is_bitrate lowest = true)
    by (apply (forallb_nth_error _ _ 0%nat lowest Hbit); reflexivity).
  destruct (getClosestBitrate_capped lowest rest target lowest Hbit
              (is_bitrate_le_refl _ Hlow) Ht) as (v & Hres & Hin & Hle).
  exists v. split; [exact Hres|].
  apply num_le_antisym; [exact Hle|].
  apply In_nth_error in Hin. destruct Hin as [[|i] Hi].
  - cbn in Hi. injection Hi as <-. apply is_bitrate_le_refl; assumption.
  - apply (ascending_nth_error _ Hasc 0 (S i)); auto. lia.
Qed.

(** The pick for a target whose closest value is [v]. *)
Lemma pick_of_closest reps bitrates btr v :
  ladder_of reps bitrates = true ->
  getClosestBitrate bitrates btr (int 0) = VNum v -> In v bitrates ->
  exists r,
    find reps (fun rep => strict_equals (VNum (bitrate rep))
                            (getClosestBitrate bitrates btr (int 0)))
    = Some r /\ In r reps /\ (bitrate r === v)%num = true.
Proof.
  intros Hlad Hres Hin. rewrite Hres. cbn [strict_equals].
  unfold ladder_of in Hlad. rewrite forallb_forall in Hlad.
  destruct (find_existsb _ _ (Hlad v Hin)) as [r Hr].
  destruct (find_Some _ _ _ Hr). eauto.
Qed.

Lemma Math_min_le_l a b :
  (int 0 <=? a)%num = true -> (int 0 <=? b)%num = true ->
  (int 0 <=? Math_min a b)%num = true /\
  (Math_min a b <=? a)%num = true /\ (Math_min a b <=? b)%num = true.
Proof.
  destruct a as [x| | |], b as [y| | |]; cbn; try discriminate; auto.
  - intros Hx Hy. destruct (Qle_bool x y) eqn:E; cbn; repeat split; auto.
    + apply Qle_bool_iff. lra.
    + apply Qle_bool_false_iff in E. apply Qle_bool_iff. lra.
    + apply Qle_bool_iff. lra.
  - intros Hx _. repeat split; auto. apply Qle_bool_iff. lra.
  - intros _ Hy. repeat split; auto. apply Qle_bool_iff. lra.
Qed.

(** X6.  When the Representations carry the bitrates of the ladder, which
    are not negative, and the estimate is not negative, the combining
    function of [getBufferAdapters] returns a Representation of
    the array, whose bitrate is at most the pinned bitrate when there is a
    pin that is at least the lowest bitrate, and at most the cap when there
    is no pin and the cap is at least the lowest bitrate. *)
Theorem pick_within_bounds
  (reps : list Representation) (lowest : number) (rest : list number)
  (usr : number) (max avr : value) :
  let bitrates := lowest :: rest in
  forallb is_bitrate bitrates = true ->
  ladder_of reps bitrates = true ->
  (int 0 <=? ToNumber avr)%num = true ->
  ((usr <? Infinity)%num = true -> (lowest <=? usr)%num = true ->
   exists r, chooseRepresentation reps bitrates usr max avr = Some r /\
             In r reps /\ (bitrate r <=? usr)%num = true)
  /\ (usr = Infinity -> (lowest <=? ToNumber max)%num = true ->
      exists r, chooseRepresentation reps bitrates usr max avr = Some r /\
                In r reps /\ (bitrate r <=? ToNumber max)%num = true).
Proof.
  intros bitrates Hbit Hlad Havr. subst bitrates.
  assert (Hlow : (int 0 <=? lowest)%num = true)
    by (apply is_bitrate_nonneg,
          (forallb_nth_error _ _ 0%nat lowest Hbit); reflexivity).
  unfold chooseRepresentation. split.
  - intros Hfin Hle. unfold targetBitrate. rewrite Hfin.
    destruct (getClosestBitrate_capped lowest rest usr usr Hbit Hle)
      as (v & Hres & Hin & Hcap).
    { right. split; [eapply num_le_trans; eassumption|].
      destruct usr as [u| | |]; try discriminate.
      - apply Qle_bool_iff. lra.
      - destruct lowest; discriminate. }
    destruct (pick_of_closest reps _ _ _ Hlad Hres Hin) as (r & Hr & Hrin & Heq).
    exists r. repeat split; auto. eapply num_eq_le; eassumption.
  - intros -> Hle. unfold targetBitrate.
    change (Infinity <? Infinity)%num with false. cbn iota.
    set (m := ToNumber max) in *. set (a := ToNumber avr) in *.
    assert (Hm0 : (int 0 <=? m)%num = true)
      by (eapply num_le_trans; eassumption).
    destruct (m <? Infinity)%num eqn:Hfin.
    + destruct (Math_min_le_l m a Hm0 Havr) as (H0 & Hl & _).
      destruct (getClosestBitrate_capped lowest rest (Math_min m a) m Hbit Hle)
        as (v & Hres & Hin & Hcap); [right; auto|].
      destruct (pick_of_closest reps _ _ _ Hlad Hres Hin)
        as (r & Hr & Hrin & Heq).
      exists r. repeat split; auto. eapply num_eq_le; eassumption.
    + assert (Em : m = PInf).
      { destruct m; cbn in Hfin, Hm0; try discriminate; reflexivity. }
      destruct (getClosestBitrate_member lowest rest a (int 0))
        as (v & Hres & Hin).
      destruct (pick_of_closest reps _ _ _ Hlad Hres Hin)
        as (r & Hr & Hrin & Heq).
      exists r. repeat split; auto. rewrite Em.
      destruct (bitrate r); cbn in Heq |- *; try reflexivity.
      destruct v; discriminate.
Qed.

Lemma pick_within_bounds_witness :
  (exists r,
      chooseRepresentation (representations audioSample)
        [int 64000; int 128000] (int 100000) (VNum Infinity)
        (VNum (int 128000)) = Some r /\
      In r (representations audioSample) /\
      (bitrate r <=? int 100000)%num = true)
  /\ (exists r,
         chooseRepresentation (representations audioSample)
           [int 64000; int 128000] Infinity (VNum (int 100000))
           (VNum (int 128000)) = Some r /\
         In r (representations audioSample) /\
         (bitrate r <=? ToNumber (VNum (int 100000)))%num = true).
Proof.
  split.
  - apply (proj1 (pick_within_bounds (representations audioSample)
                    (int 64000) [int 128000] (int 100000) (VNum Infinity)
                    (VNum (int 128000)) eq_refl eq_refl eq_refl));
      reflexivity.
  - apply (proj2 (pick_within_bounds (representations audioSample)
                    (int 64000) [int 128000] Infinity (VNum (int 100000))
                    (VNum (int 128000)) eq_refl eq_refl eq_refl));
      reflexivity.
Defined.

(** ** More on [getMaxUsefulBitrateforWidth] *)

Lemma in_order_adjacent {A} (compareFn : A -> A -> number) l i x y :
  in_order compareFn l ->
  nth_error l i = Some x -> nth_error l (S i) = Some y ->
  (compareFn x y >? int 0)%num = false.
Proof.
  revert i. induction l as [|a l IH]; intros i Hl Hx Hy.
  - destruct i; discriminate.
  - destruct l as [|b l]; [cbn in Hy; destruct i; discriminate|].
    destruct Hl as [Hab Hl]. destruct i as [|i].
    + cbn in Hx, Hy. injection Hx as <-. injection Hy as <-. exact Hab.
    + apply (IH i Hl); assumption.
Qed.

Lemma byWidth_not_after x y :
  is_finite (width x) = true -> is_finite (width y) = true ->
  (byWidth x y >? int 0)%num = false -> (width x <=? width y)%num = true.
Proof.
  unfold byWidth, num_gt.
  destruct (width x) as [a| | |], (width y) as [b| | |]; cbn;
    try discriminate.
  intros _ _ H. apply negb_false_iff, Qle_bool_iff in H.
  change (inject_Z 0) with 0 in H. apply Qle_bool_iff. lra.
Qed.

(** X7.  [getMaxUsefulBitrateforWidth] leaves the array of the caller
    with the same Representations, with every two neighbours of finite
    width in ascending order of width, and a second call on that array
    returns what the first call would return for the same width without
    changing the array again. *)
Theorem getMaxUsefulBitrateforWidth_sorts
  (representations : list Representation) (targetWidth : number) :
  let after := snd (getMaxUsefulBitrateforWidth representations targetWidth) in
  Permutation representations after
  /\ (forall i x y,
         nth_error after i = Some x -> nth_error after (S i) = Some y ->
         is_finite (width x) = true -> is_finite (width y) = true ->
         (width x <=? width y)%num = true)
  /\ (forall w,
         getMaxUsefulBitrateforWidth after w
         = (fst (getMaxUsefulBitrateforWidth representations w), after)).
Proof.
  intros after. unfold after. rewrite getMaxUsefulBitrateforWidth_array.
  split; [apply Array_sort_Permutation|]. split.
  - intros i x y Hx Hy Fx Fy. apply byWidth_not_after; auto.
    apply (in_order_adjacent byWidth (Array_sort byWidth representations)
             i x y); auto.
    apply Array_sort_in_order, byWidth_asym.
  - intros w. rewrite getMaxUsefulBitrateforWidth_sorted.
    rewrite <- (getMaxUsefulBitrateforWidth_array representations w).
    destruct (getMaxUsefulBitrateforWidth representations w); reflexivity.
Qed.

Lemma existsb_false_forall {A} (p : A -> bool) l :
  existsb p l = false -> forall x, In x l -> p x = false.
Proof.
  intros H x Hx. destruct (p x) eqn:E; [|reflexivity].
  assert (existsb p l = true) by (apply existsb_exists; eauto). congruence.
Qed.

Lemma getMaxUsefulBitrateforWidth_none representations targetWidth :
  existsb (fun r => (width r >=? targetWidth)%num) representations = false ->
  fst (getMaxUsefulBitrateforWidth representations targetWidth)
  = VNum Infinity.
Proof.
  intros Hall. unfold getMaxUsefulBitrateforWidth, Array_find.
  destruct (List.find _ _) as [r|] eqn:E; [|reflexivity].
  apply List.find_some in E. destruct E as [Hin Hge].
  apply (Permutation_in _ (Permutation_sym (Array_sort_Permutation _ _)))
    in Hin.
  rewrite (existsb_false_forall _ _ Hall r Hin) in Hge. discriminate.
Qed.

(** X8.  [getMaxUsefulBitrateforWidth] returns a Representation of the
    array, which is [NaN] as a number, when one is at least as wide as the
    target, and [Infinity] otherwise; it never returns a finite bitrate. *)
Theorem getMaxUsefulBitrateforWidth_results
  (representations : list Representation) (targetWidth : number) :
  let result := fst (getMaxUsefulBitrateforWidth representations targetWidth) in
  let reached :=
    existsb (fun r => (width r >=? targetWidth)%num) representations in
  (reached = true ->
   exists first, result = VRep first /\ In first representations /\
                 ToNumber result = NaN)
  /\ (reached = false -> result = VNum Infinity)
  /\ (forall n, result = VNum n -> n = Infinity).
Proof.
  intros result reached.
  assert (H1 : reached = true ->
               exists first, result = VRep first /\ In first representations /\
                             ToNumber result = NaN).
  { intros H. apply existsb_exists in H. destruct H as (r & Hin & Hge).
    destruct (getMaxUsefulBitrateforWidth_object _ _ r Hin Hge)
      as (first & Hres & Hf).
    exists first. unfold result. rewrite Hres. auto. }
  assert (H2 : reached = false -> result = VNum Infinity)
    by apply getMaxUsefulBitrateforWidth_none.
  split; [exact H1|]. split; [exact H2|].
  intros n Hn. destruct reached eqn:E.
  - destruct (H1 eq_refl) as (first & Hres & _). congruence.
  - rewrite (H2 eq_refl) in Hn. congruence.
Qed.

(** X9.  With [limitVideoWidth] set, and the player not throttled, the
    bound that the video stream computes is [NaN] as soon as one
    Representation is at least as wide as the element, and then the cap of
    the user plays no part in the target bitrate; it is the cap of the user
    when no Representation is that wide. *)
Theorem width_limit_bound
  (cfg : Config) (bitrates : list number)
  (representations : list Representation)
  (maxSet w : number) (hidden : bool) :
  let bound :=
    fst (videoMaxBitrates cfg bitrates representations maxSet w hidden) in
  limitVideoWidth cfg = true -> throttleWhenHidden cfg && hidden = false ->
  (existsb (fun r => (width r >=? w)%num) representations = true ->
   bound = VNum NaN /\
   forall usr avr,
     targetBitrate usr bound avr
     = if (usr <? Infinity)%num then usr else ToNumber avr)
  /\ (existsb (fun r => (width r >=? w)%num) representations = false ->
      bound = VNum (Math_min Infinity maxSet)).
Proof.
  intros bound Hlimit Hthrottle. unfold bound, videoMaxBitrates.
  rewrite Hlimit, Hthrottle.
  pose proof (getMaxUsefulBitrateforWidth_none representations w) as Hnone.
  assert (Hobj : existsb (fun r => (width r >=? w)%num) representations
                 = true ->
                 exists first,
                   fst (getMaxUsefulBitrateforWidth representations w)
                   = VRep first).
  { intros H. apply existsb_exists in H. destruct H as (r & Hin & Hge).
    destruct (getMaxUsefulBitrateforWidth_object _ _ r Hin Hge)
      as (first & Hres & _).
    exists first. rewrite Hres. reflexivity. }
  destruct (getMaxUsefulBitrateforWidth representations w) as [m reps'].
  cbn [fst] in *. split.
  - intros H. destruct (Hobj H) as (first & ->). cbn [ToNumber Math_min].
    split; [reflexivity|]. intros usr avr. unfold targetBitrate.
    destruct (usr <? Infinity)%num; reflexivity.
  - intros H. rewrite (Hnone H). reflexivity.
Qed.

Lemma width_limit_bound_witness :
  limitVideoWidth (config engineLimitingWidth) = true
  /\ fst (videoMaxBitrates (config engineLimitingWidth) [Mbps 1; Mbps 2]
            (representations videoSample) Infinity (int 1000) false)
     = VNum NaN
  /\ fst (videoMaxBitrates (config engineLimitingWidth) [Mbps 1; Mbps 2]
            (representations videoSample) (Mbps 1) (int 2000) false)
     = VNum (Math_min Infinity (Mbps 1)).
Proof.
  split; [reflexivity|]. split.
  - apply (proj1 (width_limit_bound (config engineLimitingWidth)
                    [Mbps 1; Mbps 2] (representations videoSample)
                    Infinity (int 1000) false eq_refl eq_refl)).
    reflexivity.
  - apply (proj2 (width_limit_bound (config engineLimitingWidth)
                    [Mbps 1; Mbps 2] (representations videoSample)
                    (Mbps 1) (int 2000) false eq_refl eq_refl)).
    reflexivity.
Defined.

(** ** The stream over any sequence of notifications *)

Lemma chooseRepresentation_In reps bitrates usr max avr r :
  chooseRepresentation reps bitrates usr max avr = Some r -> In r reps.
Proof. unfold chooseRepresentation. intros H. apply find_Some in H. tauto. Qed.

Lemma combine_output_ok original s s' :
  output_ok original s -> combine s = Ok s' -> output_ok original s'.
Proof.
  intros (Hperm & Hdist & Hkey & Hin & Hlen).
  unfold combine, emitDistinct. cbn [s_key]. fold (chosen_of s).
  assert (Hchosen : forall r, chosen_of s = Some r -> In r original).
  { intros r Hr. apply chooseRepresentation_In in Hr.
    apply (Permutation_in _ (Permutation_sym Hperm)). exact Hr. }
  destruct (s_key s) as [[a|]|] eqn:K.
  - destruct (chosen_of s) as [b|] eqn:C; [|discriminate].
    destruct (String.eqb (id a) (id b)) eqn:I; intros [= <-];
      unfold output_ok;
      cbn [s_representations s_emitted s_key s_evaluations].
    + repeat split; auto.
    + destruct (s_emitted s) as [|c rest] eqn:E; [discriminate|].
      injection Hkey as <-.
      repeat split; auto.
      * cbn [differ]. rewrite String.eqb_sym. exact I.
      * intros r [[= <-] | Hr]; auto.
      * cbn [length] in *. lia.
  - discriminate.
  - intros [= <-]. unfold output_ok.
    cbn [s_representations s_emitted s_key s_evaluations].
    destruct (s_emitted s) as [|c rest] eqn:E; [|discriminate].
    repeat split; auto.
    + intros r [Hr | []]. apply Hchosen. exact Hr.
    + cbn. lia.
Qed.

Lemma videoMaxBitrates_Permutation cfg bitrates reps maxSet w hidden :
  Permutation reps (snd (videoMaxBitrates cfg bitrates reps maxSet w hidden)).
Proof.
  unfold videoMaxBitrates.
  destruct (throttleWhenHidden cfg && hidden); [reflexivity|].
  destruct (limitVideoWidth cfg); [|reflexivity].
  pose proof (getMaxUsefulBitrateforWidth_Permutation reps w) as H.
  destruct (getMaxUsefulBitrateforWidth reps w). exact H.
Qed.

Lemma refreshMax_representations_Permutation s m w h :
  Permutation (s_representations s) (s_representations (refreshMax s m w h)).
Proof.
  unfold refreshMax.
  pose proof (videoMaxBitrates_Permutation (s_config s) (s_bitrates s)
                (s_representations s) m w h) as H.
  destruct (String.eqb (s_type s) "video").
  - destruct (videoMaxBitrates _ _ _ _ _ _). exact H.
  - reflexivity.
Qed.

Lemma refreshMax_output_ok original s m w h :
  output_ok original s -> output_ok original (refreshMax s m w h).
Proof.
  intros (Hperm & Hdist & Hkey & Hin & Hlen).
  destruct (refreshMax_output s m w h) as (K & E & V & _).
  unfold output_ok. rewrite K, E, V. repeat split; auto.
  eapply Permutation_trans; [exact Hperm|].
  apply refreshMax_representations_Permutation.
Qed.

Lemma deliver_output_ok original n s s' :
  output_ok original s -> deliver n s = Ok s' -> output_ok original s'.
Proof.
  intros Hok. destruct n; cbn [deliver].
  - intros [= <-]; exact Hok.
  - intros [= <-]; exact Hok.
  - destruct (String.eqb _ _); intros [= <-]; exact Hok.
  - destruct (String.eqb _ _); [|intros [= <-]; exact Hok].
    apply combine_output_ok. exact Hok.
  - destruct (String.eqb _ _); [|intros [= <-]; exact Hok].
    apply combine_output_ok, refreshMax_output_ok, Hok.
  - intros [= <-]; exact Hok.
  - destruct (String.eqb _ _); [|intros [= <-]; exact Hok].
    apply combine_output_ok, refreshMax_output_ok, Hok.
  - destruct (String.eqb _ _); [|intros [= <-]; exact Hok].
    apply combine_output_ok, refreshMax_output_ok, Hok.
  - unfold settle. destruct (s_pending s); [|intros [= <-]; exact Hok].
    apply combine_output_ok. exact Hok.
Qed.

Lemma deliver_all_output_ok original ns s s' :
  output_ok original s -> deliver_all ns s = Ok s' -> output_ok original s'.
Proof.
  revert s. induction ns as [|n ns IH]; intros s Hok; cbn [deliver_all].
  - intros [= <-]; exact Hok.
  - destruct (deliver n s) as [s1|] eqn:E; [|discriminate].
    apply IH. eapply deliver_output_ok; eassumption.
Qed.

Lemma subscribe_output_ok e d a startWith s :
  subscribe e d a startWith = Ok s -> output_ok (representations a) s.
Proof.
  unfold subscribe.
  destruct (usrBitrates e (type a)) as [usr|]; [|discriminate].
  destruct (maxBitrates e (type a)) as [maxSet|]; [|discriminate].
  destruct (averageBitrates e (type a)) as [avr|]; [|discriminate].
  destruct (combine _) as [s2|] eqn:C; [|discriminate].
  intros [= <-].
  apply combine_output_ok with (original := representations a) in C.
  - exact C.
  - apply refreshMax_output_ok. unfold output_ok.
    cbn [s_representations s_emitted s_key s_evaluations].
    repeat split; auto. intros r [].
Qed.

(** X10.  After a subscription to the stream of Representations and any
    notifications that it handled without error: two consecutive values of
    the stream have different identifiers, every Representation that was
    emitted belongs to the Adaptation, no more values were emitted than the
    combining function ran, and the array of the Adaptation still holds the
    same Representations. *)
Theorem emitted_stream_invariant
  (e : Engine) (d : DeviceEvents) (a : Adaptation) (startWith : value)
  (ns : list Notification) (s0 s : Subscriber) :
  subscribe e d a startWith = Ok s0 ->
  deliver_all ns s0 = Ok s ->
  distinct_ids (s_emitted s)
  /\ (forall r, In (Some r) (s_emitted s) -> In r (representations a))
  /\ (length (s_emitted s) <= s_evaluations s)%nat
  /\ Permutation (representations a) (s_representations s).
Proof.
  intros Hsub Hrun.
  pose proof (deliver_all_output_ok _ ns s0 s
                (subscribe_output_ok _ _ _ _ _ Hsub) Hrun)
    as (Hperm & Hdist & _ & Hin & Hlen).
  auto.
Qed.

Lemma emitted_stream_invariant_witness :
  exists s,
    subscribe engineSample deviceSample audioSample (VNum (int 64000))
    = Ok subscriberSample /\
    deliver_all notificationsSample subscriberSample = Ok s /\
    length (s_emitted s) = 3%nat /\
    distinct_ids (s_emitted s) /\
    (forall r, In (Some r) (s_emitted s) ->
               In r (representations audioSample)) /\
    (length (s_emitted s) <= s_evaluations s)%nat /\
    Permutation (representations audioSample) (s_representations s).
Proof.
  assert (H0 : subscribe engineSample deviceSample audioSample
                 (VNum (int 64000)) = Ok subscriberSample)
    by (vm_compute; reflexivity).
  destruct (deliver_all notificationsSample subscriberSample) as [s|] eqn:H.
  - exists s. split; [exact H0|]. split; [reflexivity|].
    split; [vm_compute in H; injection H as <-; reflexivity|].
    exact (emitted_stream_invariant engineSample deviceSample audioSample
             (VNum (int 64000)) notificationsSample subscriberSample s H0 H).
  - exfalso. vm_compute in H. discriminate.
Defined.

(** With a finite pin the pick is that of the pin alone. *)
Lemma chosen_of_pinned s :
  (s_usr s <? Infinity)%num = true ->
  chosen_of s
  = find (s_representations s)
         (fun rep => strict_equals (VNum (bitrate rep))
                       (getClosestBitrate (s_bitrates s) (s_usr s) (int 0))).
Proof.
  intros H. unfold chosen_of, chooseRepresentation, targetBitrate.
  rewrite H. reflexivity.
Qed.

Lemma refreshMax_never_sorts s m w h :
  never_sorts s ->
  s_representations (refreshMax s m w h) = s_representations s.
Proof.
  intros Hn. unfold refreshMax.
  destruct (String.eqb (s_type s) "video") eqn:E; [|reflexivity].
  apply String.eqb_eq in E. destruct Hn as [Hn | Hn]; [contradiction|].
  unfold videoMaxBitrates. rewrite Hn.
  destruct (throttleWhenHidden (s_config s) && h); reflexivity.
Qed.

Lemma refreshMax_static s m w h :
  s_config (refreshMax s m w h) = s_config s /\
  s_type (refreshMax s m w h) = s_type s /\
  s_bitrates (refreshMax s m w h) = s_bitrates s /\
  s_usr (refreshMax s m w h) = s_usr s /\
  s_avr (refreshMax s m w h) = s_avr s.
Proof.
  unfold refreshMax. destruct (if String.eqb _ _ then _ else _).
  repeat split.
Qed.

(** A run of the combining function on a pinned state whose pin, ladder
    and array are those of [s] emits nothing and leaves a pinned state. *)
Lemma combine_pinned s x s' :
  pinned s ->
  s_config x = s_config s -> s_type x = s_type s ->
  s_bitrates x = s_bitrates s ->
  s_representations x = s_representations s -> s_usr x = s_usr s ->
  s_key x = s_key s -> s_emitted x = s_emitted s ->
  combine x = Ok s' ->
  pinned s' /\ s_emitted s' = s_emitted s /\ s_usr s' = s_usr s /\
  s_type s' = s_type s.
Proof.
  intros (Hfin & Hkey & Hns) Hc Ht Hb Hr Hu Hk He Hcomb.
  assert (Hx : (s_usr x <? Infinity)%num = true) by (rewrite Hu; exact Hfin).
  assert (Hchosen : chosen_of x = chosen_of s)
    by (rewrite (chosen_of_pinned x Hx), (chosen_of_pinned s Hfin),
          Hb, Hr, Hu; reflexivity).
  assert (Hkx : key_matches x (chosen_of x))
    by (unfold key_matches in *; rewrite Hk, Hchosen; exact Hkey).
  pose proof (combine_repeat _ _ Hkx Hcomb) as Hem.
  pose proof (combine_inputs _ _ Hcomb)
    as (I1 & I2 & I3 & I4 & I5 & _).
  pose proof (combine_key _ _ Hcomb) as Hk'.
  assert (Hs' : (s_usr s' <? Infinity)%num = true) by (rewrite I5; exact Hx).
  repeat split.
  - exact Hs'.
  - rewrite (chosen_of_pinned s' Hs'), I3, I4, I5.
    rewrite <- (chosen_of_pinned x Hx). exact Hk'.
  - unfold never_sorts in *. rewrite I1, I2, Hc, Ht. exact Hns.
  - rewrite Hem. exact He.
  - rewrite I5. exact Hu.
  - rewrite I2. exact Ht.
Qed.

Lemma deliver_pinned n s s' :
  pinned s -> is_pin (s_type s) n = false -> deliver n s = Ok s' ->
  pinned s' /\ s_emitted s' = s_emitted s /\ s_usr s' = s_usr s /\
  s_type s' = s_type s.
Proof.
  intros Hp Hn.
  assert (Hid : Ok s = Ok s' ->
                pinned s' /\ s_emitted s' = s_emitted s /\
                s_usr s' = s_usr s /\ s_type s' = s_type s)
    by (intros [= <-]; auto).
  assert (Hrefresh : forall m w h,
             combine (refreshMax s m w h) = Ok s' ->
             pinned s' /\ s_emitted s' = s_emitted s /\
             s_usr s' = s_usr s /\ s_type s' = s_type s).
  { intros m w h. destruct (refreshMax_static s m w h) as (R1 & R2 & R3 & R4 & _).
    destruct (refreshMax_output s m w h) as (K & E & _ & _).
    apply (combine_pinned s); auto.
    apply refreshMax_never_sorts, Hp. }
  assert (Hsmooth : forall a, Ok (smooth s a) = Ok s' ->
                pinned s' /\ s_emitted s' = s_emitted s /\
                s_usr s' = s_usr s /\ s_type s' = s_type s).
  { intros a [= <-]. destruct Hp as (H1 & H2 & H3). repeat split; auto. }
  destruct n; cbn [deliver is_pin] in *.
  - exact Hid.
  - exact Hid.
  - destruct (String.eqb _ _); [apply Hsmooth | exact Hid].
  - rewrite Hn. exact Hid.
  - destruct (String.eqb _ _); [apply Hrefresh | exact Hid].
  - exact Hid.
  - destruct (String.eqb _ _); [apply Hrefresh | exact Hid].
  - destruct (String.eqb _ _); [apply Hrefresh | exact Hid].
  - unfold settle. destruct (s_pending s); [|exact Hid].
    apply (combine_pinned s); auto.
Qed.

Lemma deliver_all_pinned ns s s' :
  pinned s ->
  forallb (fun n => negb (is_pin (s_type s) n)) ns = true ->
  deliver_all ns s = Ok s' ->
  s_emitted s' = s_emitted s /\ s_usr s' = s_usr s.
Proof.
  revert s. induction ns as [|n ns IH]; intros s Hp Hns; cbn [deliver_all].
  - intros [= <-]. auto.
  - cbn [forallb] in Hns. apply andb_prop in Hns. destruct Hns as [Hn Hns].
    apply negb_true_iff in Hn.
    destruct (deliver n s) as [s1|] eqn:E; [|discriminate].
    destruct (deliver_pinned n s s1 Hp Hn E) as (Hp1 & He1 & Hu1 & Ht1).
    intros Hrun. rewrite <- Ht1 in Hns.
    destruct (IH s1 Hp1 Hns Hrun) as [He Hu].
    rewrite He, Hu. auto.
Qed.

(** X11.  Once a finite bitrate is pinned for the type of a subscriber
    whose array is never sorted, no notification other than a new pin
    (estimates, the timer, caps, width, visibility) makes the stream emit
    again, and the pin stays. *)
Theorem pinned_bitrate_holds
  (s0 s s' : Subscriber) (v : number) (ns : list Notification) :
  s_type s0 <> "video"%string \/ limitVideoWidth (s_config s0) = false ->
  (v <? Infinity)%num = true ->
  deliver (UsrBitrates (s_type s0) v) s0 = Ok s ->
  forallb (fun n => negb (is_pin (s_type s0) n)) ns = true ->
  deliver_all ns s = Ok s' ->
  s_emitted s' = s_emitted s /\ s_usr s' = v.
Proof.
  intros Hns Hfin Hpin Hothers Hrun.
  cbn [deliver] in Hpin. rewrite String.eqb_refl in Hpin.
  pose proof (combine_inputs _ _ Hpin) as Hin.
  pose proof (combine_key _ _ Hpin) as Hkey.
  pose proof Hin as (I1 & I2 & I3 & I4 & I5 & _).
  cbn [with_usr s_config s_type s_bitrates s_representations s_usr] in *.
  assert (Hp : pinned s).
  { repeat split.
    - rewrite I5. exact Hfin.
    - rewrite (chosen_of_same_inputs _ _ Hin). exact Hkey.
    - unfold never_sorts. rewrite I1, I2. exact Hns. }
  rewrite <- I2 in Hothers.
  destruct (deliver_all_pinned ns s s' Hp Hothers Hrun) as [He Hu].
  split; [exact He|]. rewrite Hu. exact I5.
Qed.

Lemma pinned_bitrate_holds_witness :
  exists s s',
    deliver (UsrBitrates "audio" (int 128000)) subscriberSample = Ok s /\
    deliver_all
      [ AverageBitrates "audio" (int 10); DebounceElapsed;
        MaxBitrates "audio" (int 64000); InBackground true ] s = Ok s' /\
    s_emitted s' = s_emitted s /\ s_usr s' = int 128000.
Proof.
  destruct (deliver (UsrBitrates "audio" (int 128000)) subscriberSample)
    as [s|] eqn:H1; [|exfalso; vm_compute in H1; discriminate].
  destruct (deliver_all
              [ AverageBitrates "audio" (int 10); DebounceElapsed;
                MaxBitrates "audio" (int 64000); InBackground true ] s)
    as [s'|] eqn:H2.
  - exists s, s'. split; [reflexivity|]. split; [exact H2|].
    assert (Hty : s_type subscriberSample <> "video"%string)
      by (cbn; discriminate).
    exact (pinned_bitrate_holds subscriberSample s s' (int 128000)
             [ AverageBitrates "audio" (int 10); DebounceElapsed;
               MaxBitrates "audio" (int 64000); InBackground true ]
             (or_introl Hty) eq_refl H1 eq_refl H2).
  - exfalso. vm_compute in H1. injection H1 as <-. vm_compute in H2.
    discriminate.
Defined.

(** ** The estimates and the debounce timer *)

Lemma smooth_output s a :
  s_emitted (smooth s a) = s_emitted s /\
  s_evaluations (smooth s a) = s_evaluations s /\
  s_count (smooth s a) = S (s_count s) /\
  s_type (smooth s a) = s_type s /\
  (pending_is_latest s -> pending_is_latest (smooth s a)).
Proof.
  unfold smooth, pending_is_latest.
  cbn [s_emitted s_evaluations s_count s_type s_pending s_avrKey].
  repeat split.
  destruct (match s_avrKey s with None => true | Some _ => _ end); auto.
Qed.

Lemma estimates_run s estimates :
  exists s',
    deliver_all (map (AverageBitrates (s_type s)) estimates) s = Ok s' /\
    s_emitted s' = s_emitted s /\ s_evaluations s' = s_evaluations s /\
    s_count s' = (s_count s + length estimates)%nat /\
    s_type s' = s_type s /\
    (pending_is_latest s -> pending_is_latest s').
Proof.
  revert s. induction estimates as [|a l IH]; intros s.
  - exists s. cbn. repeat split; auto.
  - cbn [map deliver_all deliver]. rewrite String.eqb_refl.
    destruct (smooth_output s a) as (E & V & C & T & P).
    destruct (IH (smooth s a)) as (s' & Hrun & E' & V' & C' & T' & P').
    exists s'. rewrite <- T. repeat split; auto; try congruence.
    rewrite C', C. cbn [length]. lia.
Qed.

Lemma combine_pending s s' : combine s = Ok s' -> s_pending s' = s_pending s.
Proof.
  unfold combine, emitDistinct. cbn [s_key].
  destruct (s_key s) as [[a|]|];
    [destruct (chooseRepresentation _ _ _ _ _) as [b|];
     [destruct (String.eqb (id a) (id b))|] | |];
    try discriminate; intros [= <-]; reflexivity.
Qed.

(** X12.  Estimates of the average bitrate alone never make the stream
    of Representations emit or the combining function run: they wait for
    the debounce timer.  When the timer fires the combining function runs
    at most once, nothing is held back any more, and a second firing does
    nothing. *)
Theorem estimates_wait_for_timer (s : Subscriber) (estimates : list number) :
  (exists s',
      deliver_all (map (AverageBitrates (s_type s)) estimates) s = Ok s' /\
      s_emitted s' = s_emitted s /\ s_evaluations s' = s_evaluations s /\
      (pending_is_latest s -> pending_is_latest s'))
  /\ (forall s1,
         deliver DebounceElapsed s = Ok s1 ->
         s_pending s1 = None /\
         deliver DebounceElapsed s1 = Ok s1 /\
         (s_evaluations s1 <= S (s_evaluations s))%nat /\
         (s_pending s = None -> s1 = s)).
Proof.
  split.
  - destruct (estimates_run s estimates) as (s' & H1 & H2 & H3 & _ & _ & H6).
    exists s'. auto.
  - intros s1. cbn [deliver]. unfold settle.
    destruct (s_pending s) as [c|] eqn:P.
    + intros Hc. pose proof (combine_pending _ _ Hc) as Hp.
      pose proof (combine_evaluations _ _ Hc) as Hv.
      cbn [s_pending s_evaluations] in Hp, Hv.
      rewrite Hp. repeat split; auto; [lia | discriminate].
    + intros [= <-]. rewrite P. repeat split; auto.
Qed.

(** ** Throttling when hidden *)

(** X13.  With [throttleWhenHidden] set, no pinned bitrate and an estimate
    that is not negative, a video subscriber that learns that the player is
    hidden gets the lowest bitrate of its ascending ladder as its bound and picks the first Representation of the lowest
    bitrate, without any change to the array of Representations. *)
Theorem hidden_throttle_picks_lowest
  (s s' : Subscriber) (lowest : number) (rest : list number) :
  s_type s = "video"%string ->
  throttleWhenHidden (s_config s) = true ->
  s_usr s = Infinity ->
  s_bitrates s = lowest :: rest ->
  ascending (lowest :: rest) = true ->
  forallb is_bitrate (lowest :: rest) = true ->
  ladder_of (s_representations s) (lowest :: rest) = true ->
  (int 0 <=? ToNumber (s_avr s))%num = true ->
  deliver (InBackground true) s = Ok s' ->
  s_max s' = VNum lowest
  /\ s_representations s' = s_representations s
  /\ exists r,
      chosen_of s' = Some r /\ In r (s_representations s) /\
      (bitrate r === lowest)%num = true /\
      find (s_representations s) (fun rep => (bitrate rep === lowest)%num)
      = Some r /\
      key_matches s' (Some r).
Proof.
  intros Hty Hthrottle Husr Hbit Hasc Hb Hlad Havr Hdel.
  cbn [deliver] in Hdel. rewrite Hty in Hdel.
  change (String.eqb "video" "video") with true in Hdel. cbn iota in Hdel.
  set (x := refreshMax s (s_maxSet s) (s_width s) true) in *.
  assert (Hx : s_max x = VNum lowest /\
               s_representations x = s_representations s /\
               s_bitrates x = s_bitrates s /\ s_usr x = s_usr s /\
               s_avr x = s_avr s).
  { unfold x, refreshMax, videoMaxBitrates. rewrite Hty, Hthrottle, Hbit.
    cbn. repeat split. }
  destruct Hx as (X1 & X2 & X3 & X4 & X5).
  pose proof (combine_inputs _ _ Hdel) as Hin.
  pose proof (combine_key _ _ Hdel) as Hkey.
  pose proof (chosen_of_same_inputs _ _ Hin) as Hsame.
  destruct Hin as (_ & _ & _ & I4 & _ & _ & _ & _ & I9 & _).
  assert (Hlow : is_bitrate lowest = true)
    by (apply (forallb_nth_error _ _ 0%nat lowest Hb); reflexivity).
  assert (Hchosen :
            exists r, chosen_of x = Some r /\
                      find (s_representations s)
                           (fun rep => (bitrate rep === lowest)%num) = Some r).
  { unfold chosen_of, chooseRepresentation, targetBitrate.
    rewrite X1, X2, X3, X4, X5, Husr, Hbit.
    change (Infinity <? Infinity)%num with false. cbn iota. cbn [ToNumber].
    assert (Hfin : (lowest <? Infinity)%num = true)
      by (destruct lowest; try discriminate; reflexivity).
    rewrite Hfin.
    destruct (Math_min_le_l lowest (ToNumber (s_avr s))
                (is_bitrate_nonneg _ Hlow) Havr) as (M0 & Ml & _).
    destruct (getClosestBitrate_at_most_lowest lowest rest
                (Math_min lowest (ToNumber (s_avr s))) Hasc Hb)
      as (v & Hres & Hv); [right; auto|].
    rewrite Hres.
    assert (Hfind :
              find (s_representations s)
                   (fun rep => strict_equals (VNum (bitrate rep)) (VNum v))
              = find (s_representations s)
                     (fun rep => (bitrate rep === lowest)%num)).
    { apply find_ext. intros rep. cbn [strict_equals].
      apply num_eq_congr; assumption. }
    rewrite Hfind.
    unfold ladder_of in Hlad. cbn [forallb] in Hlad.
    apply andb_prop in Hlad. destruct Hlad as [Hex _].
    destruct (find_existsb _ _ Hex) as [r Hr]. exists r. auto. }
  destruct Hchosen as (r & Hr & Hfind).
  destruct (find_Some _ _ _ Hfind) as [Hrin Hreq].
  split; [rewrite I9; exact X1|]. split; [rewrite I4; exact X2|].
  exists r. rewrite Hsame. repeat split; auto.
  rewrite <- Hr. exact Hkey.
Qed.

Lemma hidden_throttle_picks_lowest_witness :
  exists s s',
    subscribe engineThrottling deviceSample videoSample (VNum (Mbps 4))
    = Ok s /\
    deliver (InBackground true) s = Ok s' /\
    s_emitted s
    = [Some (mkRepresentation "1280" (Mbps 2) (int 1280))] /\
    s_emitted s'
    = [ Some (mkRepresentation "640" (Mbps 1) (int 640));
        Some (mkRepresentation "1280" (Mbps 2) (int 1280)) ] /\
    s_max s' = VNum (Mbps 1).
Proof.
  destruct (subscribe engineThrottling deviceSample videoSample
              (VNum (Mbps 4))) as [s|] eqn:H1;
    [|exfalso; vm_compute in H1; discriminate].
  destruct (deliver (InBackground true) s) as [s'|] eqn:H2.
  - exists s, s'. split; [reflexivity|]. split; [exact H2|].
    assert (E := H1). vm_compute in E. injection E as E. subst s.
    split; [reflexivity|].
    split; [assert (E := H2); vm_compute in E; injection E as <-;
            reflexivity|].
    refine (proj1 (hidden_throttle_picks_lowest _ s' (Mbps 1) [Mbps 2]
                     _ _ _ _ _ _ _ _ H2));
      reflexivity.
  - exfalso. vm_compute in H1. injection H1 as <-. vm_compute in H2.
    discriminate.
Defined.

(** ** [getBufferAdapters]: the cases *)

(** X14.  [getBufferAdapters] on an Adaptation of at most one
    Representation returns the stream of that one value ([undefined] when
    there is none) for any type; with more Representations it throws for a
    type other than audio and video, and otherwise starts the stream of
    estimates with a value of the array of bitrates.  The buffer sizes are
    the cell of the type for audio, video and text, and a fresh cell of the
    default size for any other type. *)
Theorem getBufferAdapters_cases (e : Engine) (a : Adaptation) :
  let n := length (representations a) in
  let known := String.eqb (type a) "audio" || String.eqb (type a) "video" in
  let bufferSizes :=
    if known || String.eqb (type a) "text" then BufSizesCell (type a)
    else FreshCell (defaultBufferSize (config e)) in
  ((n <= 1)%nat ->
   getBufferAdapters e a
   = Ok (Only (index_rep (representations a) 0), bufferSizes))
  /\ ((1 < n)%nat -> known = false -> getBufferAdapters e a = TypeError)
  /\ ((1 < n)%nat -> known = true ->
      exists startWith,
        getBufferAdapters e a = Ok (Combined startWith, bufferSizes) /\
        (getAvailableBitrates a = [] -> startWith = VUndefined) /\
        (getAvailableBitrates a <> [] ->
         exists v, startWith = VNum v /\ In v (getAvailableBitrates a))).
Proof.
  intros n known bufferSizes.
  assert (Hbuf : match bufSizes e (type a) with
                 | Some _ => BufSizesCell (type a)
                 | None => FreshCell (defaultBufferSize (config e))
                 end = bufferSizes).
  { unfold bufferSizes, known, bufSizes, by_type.
    destruct (String.eqb (type a) "text") eqn:Et.
    - rewrite orb_true_r. reflexivity.
    - rewrite orb_false_r.
      destruct (String.eqb (type a) "audio"); [reflexivity|].
      destruct (String.eqb (type a) "video"); reflexivity. }
  unfold getBufferAdapters. rewrite Hbuf. fold n.
  split; [|split].
  - intros Hn. apply Nat.ltb_ge in Hn. rewrite Hn. reflexivity.
  - intros Hn Hk. apply Nat.ltb_lt in Hn. rewrite Hn.
    unfold known in Hk. apply orb_false_elim in Hk. destruct Hk as [Ha Hv].
    unfold averageBitrates, by_type. rewrite Ha, Hv. reflexivity.
  - intros Hn Hk. apply Nat.ltb_lt in Hn. rewrite Hn.
    assert (Havr : exists avr, averageBitrates e (type a) = Some avr).
    { unfold averageBitrates, by_type. unfold known in Hk.
      destruct (String.eqb (type a) "audio"); [eauto|].
      destruct (String.eqb (type a) "video"); [eauto | discriminate]. }
    destruct Havr as [avr ->]. eexists. split; [reflexivity|]. split.
    + intros ->. reflexivity.
    + intros Hne. destruct (getAvailableBitrates a) as [|lowest rest];
        [congruence|].
      apply getClosestBitrate_member.
Qed.

(** ** More on the selection of an Adaptation *)

Lemma findAdaptationByLang_Selected matcher adaptations lang a :
  findAdaptationByLang matcher adaptations lang = Selected a ->
  In a adaptations.
Proof.
  unfold findAdaptationByLang.
  destruct (_ >=? 0)%Z; [|discriminate].
  unfold index_adaptation.
  destruct (nth_error _ _) as [x|] eqn:E; [|discriminate].
  intros [= <-]. eapply nth_error_In; eassumption.
Qed.

(** X15.  A text Adaptation that is selected for a track belongs to the
    list and has the closed-caption flag of the track.  An audio Adaptation
    that is selected belongs to the list, and has the audio-description
    flag of the track unless it is the first of the list, taken as the
    fallback; the audio selection is never [null], and it is [undefined]
    exactly when the list is empty. *)
Theorem selection_respects_flags
  (findBetterMatchIndex : list string -> string -> Z)
  (adaptations : list Adaptation) :
  (forall track a,
      textAdaptationChoice findBetterMatchIndex adaptations (Some track)
      = Selected a ->
      In a adaptations /\
      isClosedCaption a = TextTrack.closedCaption track)
  /\ (forall track a,
         audioAdaptationChoice findBetterMatchIndex adaptations track
         = Selected a ->
         In a adaptations /\
         (isAudioDescription a = AudioTrack.audioDescription track \/
          nth_error adaptations 0 = Some a))
  /\ (forall track,
         audioAdaptationChoice findBetterMatchIndex adaptations track <> Null
         /\ (audioAdaptationChoice findBetterMatchIndex adaptations track
             = Undefined <-> adaptations = [])).
Proof.
  split; [|split].
  - intros track a H. cbn [textAdaptationChoice] in H.
    unfold findTextAdaptation in H.
    apply findAdaptationByLang_Selected, filter_In in H.
    destruct H as [Hin Hflag]. split; [exact Hin|].
    apply Bool.eqb_prop. exact Hflag.
  - intros track a. unfold audioAdaptationChoice, findAudioAdaptation.
    destruct (findAdaptationByLang _ _ _) as [x| |] eqn:E.
    + intros [= <-]. apply findAdaptationByLang_Selected, filter_In in E.
      destruct E as [Hin Hflag]. split; [exact Hin|].
      left. apply Bool.eqb_prop. exact Hflag.
    + unfold index_adaptation.
      destruct (nth_error adaptations 0) as [x|] eqn:E0; [|discriminate].
      intros [= <-]. split; [eapply nth_error_In; eassumption | auto].
    + unfold index_adaptation.
      destruct (nth_error adaptations 0) as [x|] eqn:E0; [|discriminate].
      intros [= <-]. split; [eapply nth_error_In; eassumption | auto].
  - intros track. unfold audioAdaptationChoice, findAudioAdaptation.
    destruct (findAdaptationByLang _ _ _) as [x| |] eqn:E.
    + split; [discriminate|]. split; [discriminate|].
      intros ->. cbn in E. unfold findAdaptationByLang in E. cbn in E.
      destruct (_ >=? 0)%Z; [|discriminate].
      unfold index_adaptation in E. destruct (Z.to_nat _); discriminate.
    + destruct adaptations as [|first l]; cbn; split; try discriminate;
        split; auto; discriminate.
    + destruct adaptations as [|first l]; cbn; split; try discriminate;
        split; auto; discriminate.
Qed.

(** ** The stream of chosen Adaptations over any sequence of tracks *)

Lemma audio_chooser_run matcher tracks c k :
  c_type c = "audio"%string -> c_languagesKey c = Some k ->
  let c' := chooser_deliver_all matcher (map Languages tracks) c in
  c_emitted c'
  = rev (map (audioAdaptationChoice matcher (c_adaptations c))
             (distinctUntilChanged same_audioTrack k tracks))
    ++ c_emitted c
  /\ c_evaluations c'
     = (length (distinctUntilChanged same_audioTrack k tracks)
        + c_evaluations c)%nat.
Proof.
  revert c k. induction tracks as [|t l IH]; intros c k Hty Hk; [split; reflexivity|].
  cbn [map distinctUntilChanged]. unfold chooser_deliver_all in *.
  cbn [fold_left chooser_deliver]. rewrite Hty, Hk.
  change (String.eqb "audio" "audio") with true. cbn iota.
  destruct (same_audioTrack k t) eqn:Es.
  - apply (IH c k Hty Hk).
  - match goal with
    | |- context [fold_left _ _ ?x] => destruct (IH x t eq_refl eq_refl) as [E V]
    end.
    cbn zeta in E, V. cbn [c_adaptations c_emitted c_evaluations] in E, V.
    cbn zeta. rewrite E, V. cbn [map rev length].
    rewrite <- app_assoc. cbn [app]. split; [reflexivity | lia].
Qed.

Lemma text_chooser_run matcher tracks c k :
  c_type c = "text"%string -> c_subtitlesKey c = Some k ->
  let c' := chooser_deliver_all matcher (map Subtitles tracks) c in
  c_emitted c'
  = rev (map (textAdaptationChoice matcher (c_adaptations c))
             (distinctUntilChanged same_textTrack k tracks))
    ++ c_emitted c
  /\ c_evaluations c'
     = (length (distinctUntilChanged same_textTrack k tracks)
        + c_evaluations c)%nat.
Proof.
  revert c k. induction tracks as [|t l IH]; intros c k Hty Hk; [split; reflexivity|].
  cbn [map distinctUntilChanged]. unfold chooser_deliver_all in *.
  cbn [fold_left chooser_deliver]. rewrite Hty, Hk.
  change (String.eqb "text" "text") with true. cbn iota.
  destruct (same_textTrack k t) eqn:Es.
  - apply (IH c k Hty Hk).
  - match goal with
    | |- context [fold_left _ _ ?x] => destruct (IH x t eq_refl eq_refl) as [E V]
    end.
    cbn zeta in E, V. cbn [c_adaptations c_emitted c_evaluations] in E, V.
    cbn zeta. rewrite E, V. cbn [map rev length].
    rewrite <- app_assoc. cbn [app]. split; [reflexivity | lia].
Qed.

Lemma other_chooser_run matcher ns c :
  c_languagesKey c = None -> c_subtitlesKey c = None ->
  chooser_deliver_all matcher ns c = c.
Proof.
  intros Hl Hs. unfold chooser_deliver_all.
  induction ns as [|n l IH]; [reflexivity|].
  cbn [fold_left]. 
  assert (E : chooser_deliver matcher n c = c).
  { destruct n; cbn [chooser_deliver]; try reflexivity.
    - destruct (String.eqb _ _); [rewrite Hl|]; reflexivity.
    - destruct (String.eqb _ _); [rewrite Hs|]; reflexivity. }
  rewrite E. exact IH.
Qed.

(** X16.  The stream of [getAdaptationsChoice] for audio (for text)
    emits the selection for the current track, then one selection for each
    later track that is not the same object as the one before it; for any
    other type it emits the first Adaptation once and nothing else. *)
Theorem choices_follow_distinct_preferences
  (findBetterMatchIndex : list string -> string -> Z)
  (e : Engine) (adaptations : list Adaptation) :
  (forall tracks,
      c_emitted
        (chooser_deliver_all findBetterMatchIndex (map Languages tracks)
           (getAdaptationsChoice findBetterMatchIndex e "audio" adaptations))
      = rev (map (audioAdaptationChoice findBetterMatchIndex adaptations)
                 (languages e
                    :: distinctUntilChanged same_audioTrack (languages e)
                         tracks)))
  /\ (forall tracks,
         c_emitted
           (chooser_deliver_all findBetterMatchIndex (map Subtitles tracks)
              (getAdaptationsChoice findBetterMatchIndex e "text"
                 adaptations))
         = rev (map (textAdaptationChoice findBetterMatchIndex adaptations)
                    (subtitles e
                       :: distinctUntilChanged same_textTrack (subtitles e)
                            tracks)))
  /\ (forall ty ns,
         ty <> "audio"%string -> ty <> "text"%string ->
         c_emitted
           (chooser_deliver_all findBetterMatchIndex ns
              (getAdaptationsChoice findBetterMatchIndex e ty adaptations))
         = [index_adaptation adaptations 0]).
Proof.
  split; [|split].
  - intros tracks.
    destruct (audio_chooser_run findBetterMatchIndex tracks
                (getAdaptationsChoice findBetterMatchIndex e "audio"
                   adaptations) (languages e) eq_refl eq_refl) as [E _].
    rewrite E. cbn [map rev]. reflexivity.
  - intros tracks.
    destruct (text_chooser_run findBetterMatchIndex tracks
                (getAdaptationsChoice findBetterMatchIndex e "text"
                   adaptations) (subtitles e) eq_refl eq_refl) as [E _].
    rewrite E. cbn [map rev]. reflexivity.
  - intros ty ns Ha Ht. unfold getAdaptationsChoice.
    apply String.eqb_neq in Ha, Ht. rewrite Ha, Ht.
    rewrite other_chooser_run; reflexivity.
Qed.

(** ** [unsubscribe] *)

Lemma unsubscribe_times_null k c :
  conns c = None -> unsubscribe_times k c = c.
Proof.
  intros H. induction k as [|k IH]; [reflexivity|].
  cbn [unsubscribe_times]. unfold unsubscribe. rewrite H. exact IH.
Qed.

(** X17.  [unsubscribe] releases the connections of the two estimators and
    sets [conns] to [null]; any number of further calls changes nothing, so
    the connections are released once. *)
Theorem unsubscribe_releases_once (k : nat) (c : Connections) :
  unsubscribe (unsubscribe c) = unsubscribe c
  /\ conns (unsubscribe c) = None
  /\ ((1 <= k)%nat ->
      unsubscribe_times k connected
      = mkConnections None ["audio"; "video"]%string)
  /\ (conns c = None -> unsubscribe_times k c = c).
Proof.
  assert (Hnull : conns (unsubscribe c) = None)
    by (unfold unsubscribe; destruct (conns c) eqn:E; [reflexivity | exact E]).
  split; [|split; [exact Hnull|split]].
  - apply (unsubscribe_times_null 1 _ Hnull).
  - intros Hk. destruct k as [|k]; [lia|].
    cbn [unsubscribe_times]. apply unsubscribe_times_null. reflexivity.
  - apply unsubscribe_times_null.
Qed.

(** ** The setters as writes of cells *)

(** X18.  Two setter calls that write different cells commute; of two
    calls that write the same cell the second one wins; and what a setter
    sends does not depend on the calls before it. *)
Theorem setters_compose (c1 c2 : Call) (e : Engine) :
  (cell_of c1 <> cell_of c2 -> calls [c1; c2] e = calls [c2; c1] e)
  /\ (cell_of c1 = cell_of c2 -> calls [c1; c2] e = calls [c2] e)
  /\ snd (call c2 (fst (call c1 e))) = snd (call c2 e).
Proof.
  split; [|split].
  - destruct c1, c2; cbn [cell_of]; intros H; try reflexivity;
      exfalso; apply H; reflexivity.
  - destruct c1, c2; cbn [cell_of]; intros H; try discriminate; reflexivity.
  - destruct c1, c2; reflexivity.
Qed.

(** ** Subscription and the [null] pick *)


Lemma combine_after_null x x' : s_key x = Some None -> combine x <> Ok x'.
Proof.
  intros Hx. unfold combine, emitDistinct. cbn [s_key]. rewrite Hx.
  discriminate.
Qed.

(** Once [null] was emitted, no delivery that runs the combining function
    succeeds. *)
Lemma deliver_after_null n x x' :
  s_key x = Some None -> deliver n x = Ok x' ->
  s_evaluations x' = s_evaluations x /\ s_emitted x' = s_emitted x.
Proof.
  intros Hx.
  assert (Hid : Ok x = Ok x' ->
                s_evaluations x' = s_evaluations x /\
                s_emitted x' = s_emitted x) by (intros [= <-]; auto).
  assert (Hrefresh : forall m w h,
             combine (refreshMax x m w h) = Ok x' ->
             s_evaluations x' = s_evaluations x /\
             s_emitted x' = s_emitted x).
  { intros m w h Hc. exfalso. revert Hc. apply combine_after_null.
    destruct (refreshMax_output x m w h) as (K & _). rewrite K. exact Hx. }
  destruct n; cbn [deliver].
  - exact Hid.
  - exact Hid.
  - destruct (String.eqb _ _); [|exact Hid]. intros [= <-]. auto.
  - destruct (String.eqb _ _); [|exact Hid].
    intros Hc. exfalso. revert Hc. apply combine_after_null. exact Hx.
  - destruct (String.eqb _ _); [apply Hrefresh | exact Hid].
  - exact Hid.
  - destruct (String.eqb _ _); [apply Hrefresh | exact Hid].
  - destruct (String.eqb _ _); [apply Hrefresh | exact Hid].
  - unfold settle. destruct (s_pending x); [|exact Hid].
    intros Hc. exfalso. revert Hc. apply combine_after_null. exact Hx.
Qed.

(** X20.  When no Representation has the target bitrate the combining
    function returns [null]: as a first value it is emitted, and no later
    delivery that succeeds emits or evaluates anything; after a first value
    every later evaluation that meets a [null], old or new, throws, so a
    stream that keeps running picked a Representation each time. *)
Theorem null_pick_fails (s : Subscriber) :
  (s_key s = Some None -> combine s = TypeError)
  /\ (chosen_of s = None -> s_key s <> None -> combine s = TypeError)
  /\ (chosen_of s = None -> s_key s = None ->
      exists s', combine s = Ok s' /\ s_emitted s' = None :: s_emitted s /\
                 forall n s'', deliver n s' = Ok s'' ->
                               s_evaluations s'' = s_evaluations s' /\
                               s_emitted s'' = s_emitted s')
  /\ (forall s', combine s = Ok s' ->
                 s_key s <> None -> exists r, chosen_of s = Some r).
Proof.
  split; [|split; [|split]].
  - intros H. unfold combine, emitDistinct. cbn [s_key]. rewrite H.
    reflexivity.
  - intros Hc Hk. unfold combine, emitDistinct. cbn [s_key].
    fold (chosen_of s). rewrite Hc.
    destruct (s_key s) as [[a|]|]; try reflexivity.
    exfalso; apply Hk; reflexivity.
  - intros Hc Hk.
    assert (E : exists s', combine s = Ok s' /\
                           s_emitted s' = None :: s_emitted s /\
                           s_key s' = Some None).
    { unfold combine, emitDistinct. cbn [s_key]. fold (chosen_of s).
      rewrite Hc, Hk. eexists. repeat split. }
    destruct E as (s' & Hs' & He & Hk').
    exists s'. repeat split; auto;
      apply (deliver_after_null n s' s'' Hk' H).
  - intros s' Hc Hk. unfold combine, emitDistinct in Hc. cbn [s_key] in Hc.
    fold (chosen_of s) in Hc.
    destruct (s_key s) as [[a|]|]; try discriminate.
    + destruct (chosen_of s) as [b|]; [eauto | discriminate].
    + exfalso; apply Hk; reflexivity.
Qed.
